(** * Shallow embedding of the parsing and aggregation core of
    [incucyte_plotter_app.py]: [_coerce_time], [_base_group_name],
    [read_incucyte_csv] and [aggregate_mean_sd].

    Numbers.  A Python/numpy float is modelled by [pyfloat]: a finite value
    as an exact rational, the two infinities and NaN.  Arithmetic is exact
    on the finite part (rounding is abstracted away) and follows IEEE 754
    on infinities and NaN.

    Strings.  A Python [str] is modelled by its UTF-8 bytes (a Rocq
    string); the regular expression on column names runs over its
    characters, each the list of its bytes ([utf8_chars]), and its class
    [\d] is Unicode's decimal digits (category Nd of the Unicode 14.0
    database of Python 3.11), as [re] uses for [str] patterns.  [str.lower]
    is modelled on ASCII letters: the code only compares the lower-cased
    names with the ASCII words [time], [group], [replicate] and [value], and
    no non-ASCII character lower-cases to ASCII letters of these words
    (U+0130 gives [i] followed by U+0307, U+212A gives [k]), so the
    comparisons come out as in Python.

    Overflow.  Finite values beyond the float range (and the exponents
    beyond 308 that pandas' parser rejects) are not modelled. *)

From Stdlib Require Import List String Ascii Bool Arith ZArith Lia.
From Stdlib Require Import QArith Qround Qreals Reals Lra.
Import ListNotations.

Local Open Scope string_scope.
Local Open Scope list_scope.

(* ------------------------------------------------------------------ *)
(** ** Python floats *)

Inductive pyfloat : Type :=
| PFin (q : Q)
| PInf
| PNInf
| PNaN.

Definition is_nan (x : pyfloat) : bool :=
  match x with PNaN => true | _ => false end.

Definition notna (x : pyfloat) : bool := negb (is_nan x).

Definition pf_neg (x : pyfloat) : pyfloat :=
  match x with
  | PFin q => PFin (- q)
  | PInf => PNInf
  | PNInf => PInf
  | PNaN => PNaN
  end.

Definition pf_add (x y : pyfloat) : pyfloat :=
  match x, y with
  | PNaN, _ | _, PNaN => PNaN
  | PFin a, PFin b => PFin (a + b)
  | PInf, PNInf | PNInf, PInf => PNaN
  | PInf, _ | _, PInf => PInf
  | PNInf, _ | _, PNInf => PNInf
  end.

Definition pf_sub (x y : pyfloat) : pyfloat := pf_add x (pf_neg y).

(** [x * x] *)
Definition pf_sq (x : pyfloat) : pyfloat :=
  match x with
  | PFin a => PFin (a * a)
  | PInf | PNInf => PInf
  | PNaN => PNaN
  end.

(** Division by a positive rational [q]. *)
Definition pf_divQ (x : pyfloat) (q : Q) : pyfloat :=
  match x with
  | PFin a => PFin (a / q)
  | other => other
  end.

(** Multiplication by a positive rational [q]. *)
Definition pf_mulQ (x : pyfloat) (q : Q) : pyfloat :=
  match x with
  | PFin a => PFin (a * q)
  | other => other
  end.

(** [np.floor] *)
Definition pf_floor (x : pyfloat) : pyfloat :=
  match x with
  | PFin a => PFin (inject_Z (Qfloor a))
  | other => other
  end.

(** Equality of float values as pandas compares grouping keys
    ([1 == 1.0]); NaN keys never reach the comparison. *)
Definition pf_eqb (x y : pyfloat) : bool :=
  match x, y with
  | PFin a, PFin b => Qeq_bool a b
  | PInf, PInf | PNInf, PNInf | PNaN, PNaN => true
  | _, _ => false
  end.

Definition pf_finite (x : pyfloat) : bool :=
  match x with PFin _ => true | _ => false end.

(* ------------------------------------------------------------------ *)
(** ** Strings and characters *)

Definition is_digit (c : ascii) : bool :=
  let n := nat_of_ascii c in Nat.leb 48 n && Nat.leb n 57.

Definition newline : ascii := ascii_of_nat 10.

(** [str.lower] on ASCII letters. *)
Definition lower_ascii (c : ascii) : ascii :=
  let n := nat_of_ascii c in
  if Nat.leb 65 n && Nat.leb n 90 then ascii_of_nat (n + 32)%nat else c.

Definition lower (s : string) : string :=
  string_of_list_ascii (map lower_ascii (list_ascii_of_string s)).




(* ------------------------------------------------------------------ *)
(** ** A backtracking matcher for the two regular expressions of the
    source.  Each combinator takes the remaining input and a continuation
    for the rest of the pattern; greedy quantifiers try the longest run
    first and fall back one character at a time, as Python's [re] does. *)

Section Backtrack.
Context {C R : Type}.

(** [p*], greedy. *)
Fixpoint m_star (p : C -> bool) (s : list C)
    (k : list C -> option R) : option R :=
  match s with
  | c :: s' =>
      if p c then
        match m_star p s' k with
        | Some r => Some r
        | None => k s
        end
      else k s
  | [] => k []
  end.

(** one character of class [p] *)
Definition m_one (p : C -> bool) (s : list C)
    (k : list C -> option R) : option R :=
  match s with
  | c :: s' => if p c then k s' else None
  | [] => None
  end.

(** [p+] *)
Definition m_plus (p : C -> bool) (s : list C)
    (k : list C -> option R) : option R :=
  m_one p s (fun s' => m_star p s' k).

(** [p?], greedy. *)
Definition m_opt (p : C -> bool) (s : list C)
    (k : list C -> option R) : option R :=
  match m_one p s k with
  | Some r => Some r
  | None => k s
  end.

(** a literal word, its characters compared with [eqb] *)
Fixpoint m_word (eqb : C -> C -> bool) (w : list C) (s : list C)
    (k : list C -> option R) : option R :=
  match w with
  | [] => k s
  | c :: w' => m_one (eqb c) s (fun s' => m_word eqb w' s' k)
  end.
End Backtrack.

(* ------------------------------------------------------------------ *)
(** ** Numeric parsing: [pd.to_numeric(v, errors="coerce")] on one string.
    pandas' [floatify] reads the UTF-8 bytes of the string as a C string
    (up to the first NUL byte) with [precise_xstrtod]: blanks, an optional
    sign, digits with an optional decimal point, an optional exponent,
    blanks, and nothing after.  When that fails, the strings [inf],
    [+inf], [-inf], [infinity], [+infinity] and [-infinity] in any case are
    accepted.  A string read as an integer is also passed to [int()], which
    refuses a NUL byte.  Anything refused becomes NaN. *)

Definition dot : ascii := ".".

(** [isspace_ascii] *)
Definition is_space (c : ascii) : bool :=
  let n := nat_of_ascii c in Nat.eqb n 32 || (Nat.leb 9 n && Nat.leb n 13).

Fixpoint skip_spaces (s : list ascii) : list ascii :=
  match s with
  | c :: s' => if is_space c then skip_spaces s' else s
  | [] => []
  end.

(** an optional sign; [true] for [-] *)
Definition take_sign (s : list ascii) : bool * list ascii :=
  match s with
  | c :: s' =>
      if Ascii.eqb c "-" then (true, s')
      else if Ascii.eqb c "+" then (false, s')
      else (false, s)
  | [] => (false, [])
  end.

Fixpoint take_digits (s : list ascii) : list ascii * list ascii :=
  match s with
  | c :: s' =>
      if is_digit c then let (d, r) := take_digits s' in (c :: d, r)
      else ([], s)
  | [] => ([], [])
  end.

(** at most [n] digits ([max_digits = 17] for the exponent) *)
Fixpoint take_digits_upto (n : nat) (s : list ascii) : list ascii * list ascii :=
  match n, s with
  | S n', c :: s' =>
      if is_digit c then let (d, r) := take_digits_upto n' s' in (c :: d, r)
      else ([], s)
  | _, _ => ([], s)
  end.

Definition digit_val (c : ascii) : Z := Z.of_nat (nat_of_ascii c - 48).

Definition digits_Z (d : list ascii) : Z :=
  fold_left (fun acc c => (acc * 10 + digit_val c)%Z) d 0%Z.

(** [m * 10^e] *)
Definition scale10 (m e : Z) : Q :=
  if (0 <=? e)%Z then inject_Z (m * 10 ^ e) else Qmake m (Z.to_pos (10 ^ (- e))).

(** [precise_xstrtod(s, &end, '.', 'E', '\0', 1, &error, &maybe_int)]:
    [None] when no digit is found, otherwise the value, [maybe_int] (no
    decimal point and no exponent) and the bytes left at [end]. *)
Definition xstrtod (s : list ascii) : option (Q * bool * list ascii) :=
  let (neg, s1) := take_sign (skip_spaces s) in
  let (ip, r1) := take_digits s1 in
  let '(fp, r2, has_dot) :=
    match r1 with
    | c :: rest =>
        if Ascii.eqb c dot then let (fp, rest2) := take_digits rest in (fp, rest2, true)
        else ([], r1, false)
    | [] => ([], [], false)
    end in
  match ip ++ fp with
  | [] => None
  | ds =>
      let '(ex, r3, has_exp) :=
        match r2 with
        | c :: rest =>
            if Ascii.eqb (lower_ascii c) "e" then
              let (eneg, rest2) := take_sign rest in
              let (ed, rest3) := take_digits_upto 17 rest2 in
              match ed with
              | [] => (0%Z, r2, true)    (* no digit: the letter is given back *)
              | _ => ((if eneg then - digits_Z ed else digits_Z ed)%Z, rest3, true)
              end
            else (0%Z, r2, false)
        | [] => (0%Z, [], false)
        end in
      let q := scale10 (digits_Z ds) (ex - Z.of_nat (List.length fp)) in
      Some (if neg then - q else q, negb (has_dot || has_exp), skip_spaces r3)
  end.

(** the bytes before the first NUL, as C reads the string *)
Fixpoint c_string (s : list ascii) : list ascii :=
  match s with
  | c :: s' => if Nat.eqb (nat_of_ascii c) 0 then [] else c :: c_string s'
  | [] => []
  end.

(** the infinities accepted by [floatify] ([strcasecmp]) *)
Definition inf_word (data : list ascii) : pyfloat :=
  let w := string_of_list_ascii (map lower_ascii data) in
  if String.eqb w "inf" || String.eqb w "+inf"
     || String.eqb w "infinity" || String.eqb w "+infinity" then PInf
  else if String.eqb w "-inf" || String.eqb w "-infinity" then PNInf
  else PNaN.

(** [floatify], then [int(val)] when [maybe_int] *)
Definition parse_float (str : string) : pyfloat :=
  let s := list_ascii_of_string str in
  let data := c_string s in
  match xstrtod data with
  | Some (q, maybe_int, []) =>
      if maybe_int && negb (Nat.eqb (List.length data) (List.length s)) then PNaN
      else PFin q
  | _ => inf_word data
  end.

(* ------------------------------------------------------------------ *)
(** ** Cells of a [DataFrame] produced by [pd.read_csv].
    A numeric column holds floats (NaN for an empty field); a column with
    any non-numeric field holds the field texts.  [CNum x r] carries the
    float and Python's [str()] of it, used by [.astype(str)]. *)

Inductive cell : Type :=
| CNum (x : pyfloat) (repr : string)
| CStr (s : string).

Definition cnan : cell := CNum PNaN "nan".

(** [str(v)] / [.astype(str)] *)
Definition py_str (c : cell) : string :=
  match c with CNum _ r => r | CStr s => s end.

(** [pd.to_numeric(v, errors="coerce")] *)
Definition to_numeric (c : cell) : pyfloat :=
  match c with CNum x _ => x | CStr s => parse_float s end.

(* ------------------------------------------------------------------ *)
(** ** [_coerce_time] *)

(** [str.extract(r"([0-9]*\.?[0-9]+)")[0]] on one string: the first
    match of the pattern ([re.search]), or [None] (NaN) when there is none. *)
Definition num_pat {R} (s : list ascii) (k : list ascii -> option R) : option R :=
  m_star is_digit s (fun s1 =>
    m_opt (Ascii.eqb dot) s1 (fun s2 =>
      m_plus is_digit s2 k)).

Fixpoint search_num (s : list ascii) : option (list ascii) :=
  match num_pat s (fun rest => Some rest) with
  | Some rest => Some (firstn (List.length s - List.length rest) s)
  | None =>
      match s with
      | [] => None
      | _ :: s' => search_num s'
      end
  end.

Definition extract_number (str : string) : option string :=
  option_map string_of_list_ascii (search_num (list_ascii_of_string str)).

(** [pd.to_numeric(s, errors="coerce")] on the extracted column *)
Definition extract_time (c : cell) : pyfloat :=
  match extract_number (py_str c) with
  | Some frag => parse_float frag
  | None => PNaN
  end.

Definition _coerce_time (col : list cell) : list pyfloat :=
  let c := map to_numeric col in
  if forallb notna c then c
  else map extract_time col.

(* ------------------------------------------------------------------ *)
(** ** [_base_group_name] and the replicate-suffix regex
    [^( .* )_(R\d+|Rep\d+|rep\d+)$] (blanks added inside the first group
    only to keep this comment well formed).  The pattern runs over the
    characters of the name; [.] is any character but a newline; the result
    is the pair of the two groups, [None] when there is no match. *)

(** a byte [10xxxxxx] that continues a UTF-8 sequence *)
Definition is_cont_byte (b : ascii) : bool :=
  let n := nat_of_ascii b in Nat.leb 128 n && Nat.ltb n 192.

(** The characters of a string, each the list of its UTF-8 bytes: a
    continuation byte joins the character before it. *)
Fixpoint utf8_chars (s : list ascii) : list (list ascii) :=
  match s with
  | [] => []
  | b :: s' =>
      match utf8_chars s' with
      | (b' :: u) :: us =>
          if is_cont_byte b' then (b :: b' :: u) :: us else [b] :: (b' :: u) :: us
      | us => [b] :: us
      end
  end.

Definition str_chars (s : string) : list (list ascii) :=
  utf8_chars (list_ascii_of_string s).

Definition string_of_chars (cs : list (list ascii)) : string :=
  string_of_list_ascii (List.concat cs).

Definition char_eqb (u v : list ascii) : bool :=
  if list_eq_dec ascii_dec u v then true else false.

Definition byte_of_Z (z : Z) : ascii := ascii_of_N (Z.to_N z).

(** The UTF-8 encoding of a code point. *)
Definition utf8_encode (cp : Z) : list ascii :=
  if (cp <? 0x80)%Z then [byte_of_Z cp]
  else if (cp <? 0x800)%Z then
    [byte_of_Z (Z.lor 0xC0 (Z.shiftr cp 6)); byte_of_Z (Z.lor 0x80 (Z.land cp 63))]
  else if (cp <? 0x10000)%Z then
    [byte_of_Z (Z.lor 0xE0 (Z.shiftr cp 12));
     byte_of_Z (Z.lor 0x80 (Z.land (Z.shiftr cp 6) 63));
     byte_of_Z (Z.lor 0x80 (Z.land cp 63))]
  else
    [byte_of_Z (Z.lor 0xF0 (Z.shiftr cp 18));
     byte_of_Z (Z.lor 0x80 (Z.land (Z.shiftr cp 12) 63));
     byte_of_Z (Z.lor 0x80 (Z.land (Z.shiftr cp 6) 63));
     byte_of_Z (Z.lor 0x80 (Z.land cp 63))].

(** The digit zero of each of the 66 runs of ten decimal digits of
    Unicode 14.0 (category Nd). *)
Definition nd_zeros : list Z :=
  [0x30; 0x660; 0x6f0; 0x7c0; 0x966; 0x9e6; 0xa66; 0xae6; 0xb66; 0xbe6;
   0xc66; 0xce6; 0xd66; 0xde6; 0xe50; 0xed0; 0xf20; 0x1040; 0x1090; 0x17e0;
   0x1810; 0x1946; 0x19d0; 0x1a80; 0x1a90; 0x1b50; 0x1bb0; 0x1c40; 0x1c50;
   0xa620; 0xa8d0; 0xa900; 0xa9d0; 0xa9f0; 0xaa50; 0xabf0; 0xff10; 0x104a0;
   0x10d30; 0x11066; 0x110f0; 0x11136; 0x111d0; 0x112f0; 0x11450; 0x114d0;
   0x11650; 0x116c0; 0x11730; 0x118e0; 0x11950; 0x11c50; 0x11d50; 0x11da0;
   0x16a60; 0x16ac0; 0x16b50; 0x1d7ce; 0x1d7d8; 0x1d7e2; 0x1d7ec; 0x1d7f6;
   0x1e140; 0x1e2f0; 0x1e950; 0x1fbf0]%Z.

Definition nd_chars : list (list ascii) :=
  flat_map (fun z => map (fun d => utf8_encode (z + Z.of_nat d)%Z) (seq 0 10)) nd_zeros.

(** [\d] on one character *)
Definition is_dec_char (u : list ascii) : bool := existsb (char_eqb u) nd_chars.

(** [.] on one character *)
Definition not_newline (u : list ascii) : bool := negb (char_eqb u [newline]).

(** [$] without MULTILINE: the end, or just before a final newline. *)
Definition at_end (s : list (list ascii)) : bool :=
  match s with
  | [] => true
  | [u] => char_eqb u [newline]
  | _ => false
  end.

Definition m_end {R} (s : list (list ascii)) (k : list (list ascii) -> option R)
  : option R :=
  if at_end s then k s else None.

(** [R\d+|Rep\d+|rep\d+] *)
Definition rep_tag {R} (s : list (list ascii)) (k : list (list ascii) -> option R)
  : option R :=
  match m_word char_eqb (str_chars "R") s (fun s1 => m_plus is_dec_char s1 k) with
  | Some r => Some r
  | None =>
      match m_word char_eqb (str_chars "Rep") s (fun s1 => m_plus is_dec_char s1 k) with
      | Some r => Some r
      | None => m_word char_eqb (str_chars "rep") s (fun s1 => m_plus is_dec_char s1 k)
      end
  end.

Definition rep_suffix_match (name : string) : option (string * string) :=
  let s := str_chars name in
  m_star not_newline s (fun s1 =>
    m_one (char_eqb ["_"%char]) s1 (fun s2 =>
      rep_tag s2 (fun s3 =>
        m_end s3 (fun _ =>
          Some (string_of_chars (firstn (List.length s - List.length s1) s),
                string_of_chars (firstn (List.length s2 - List.length s3) s2)))))).

Definition _base_group_name (colname : string) : string :=
  match rep_suffix_match colname with
  | Some (base, _) => base
  | None => colname
  end.

Example ex_rep1 : rep_suffix_match "DrugA_R1" = Some ("DrugA", "R1").
Proof. reflexivity. Qed.
Example ex_rep2 : rep_suffix_match "DrugA_Rep12" = Some ("DrugA", "Rep12").
Proof. reflexivity. Qed.
Example ex_rep3 : rep_suffix_match "ControlGroup" = None.
Proof. reflexivity. Qed.
Example ex_rep4 : rep_suffix_match "A_B_rep3" = Some ("A_B", "rep3").
Proof. reflexivity. Qed.
Example ex_ct1 : map pf_finite (_coerce_time [CStr "12h"; CStr "7.5 hrs"; CStr "bad"])
  = [true; true; false].
Proof. reflexivity. Qed.

(* ------------------------------------------------------------------ *)
(** ** Tables *)

(** The [DataFrame] returned by [pd.read_csv]: its columns, in header
    order, each with its cells (all columns have the same length). *)
Record raw_table : Type := { columns : list (string * list cell) }.

Definition col_names (t : raw_table) : list string := map fst (columns t).

(** [lower_map[k]] where [lower_map = {c.lower(): c for c in df.columns}]:
    a later column overwrites an earlier one with the same lower-case name. *)
Fixpoint lower_map_get (cols : list string) (k : string) : option string :=
  match cols with
  | [] => None
  | c :: cs =>
      match lower_map_get cs k with
      | Some c' => Some c'
      | None => if String.eqb (lower c) k then Some c else None
      end
  end.

(** [k in cols_lower] *)
Definition in_cols_lower (cols : list string) (k : string) : bool :=
  existsb (fun c => String.eqb (lower c) k) cols.

(** [df[name]] *)
Definition column (t : raw_table) (name : string) : list cell :=
  match find (fun p => String.eqb (fst p) name) (columns t) with
  | Some (_, cs) => cs
  | None => []
  end.

(** A row of the tidy [DataFrame] [time, group, replicate, value]. *)
Record tidy_rec : Type := {
  time : pyfloat;
  group : string;
  replicate : string;
  value : pyfloat
}.

(** The tidy [DataFrame]: its rows, and the categories of [group] when that
    column is an ordered [pd.Categorical] ([None]: a plain [str] column). *)
Record tidy_table : Type := {
  categories : option (list string);
  rows : list tidy_rec
}.

(** [df.dropna(subset=["time", "value"])] *)
Definition dropna (rs : list tidy_rec) : list tidy_rec :=
  filter (fun r => notna (time r) && notna (value r)) rs.

(* ------------------------------------------------------------------ *)
(** ** WIDE branch of [read_incucyte_csv] *)

(** A row of [long]: columns [time], [col], [value] before coercion. *)
Record long_rec : Type := { l_time : cell; l_col : string; l_value : cell }.

(** [df.melt(id_vars="time", value_vars=value_cols_in_order, var_name="col",
    value_name="value")]: the value columns are stacked one after the other. *)
Definition melt (time_cells : list cell) (value_cols : list (string * list cell))
  : list long_rec :=
  flat_map (fun '(c, cells) =>
              map (fun '(tc, vc) => {| l_time := tc; l_col := c; l_value := vc |})
                  (combine time_cells cells))
           value_cols.

(** [group] and [replicate] of one [long] row, from [m] and [has_rep]. *)
Definition wide_label (col : string) : string * string :=
  match rep_suffix_match col with
  | Some (base, tag) => (base, tag)
  | None => (col, "R1")
  end.

(** The [for c in value_cols_in_order] loop building [group_order]. *)
Fixpoint group_order_loop (cols : list string) (group_order seen : list string)
  : list string :=
  match cols with
  | [] => group_order
  | c :: cs =>
      let base := _base_group_name c in
      if existsb (String.eqb base) seen then group_order_loop cs group_order seen
      else group_order_loop cs (group_order ++ [base]) (base :: seen)
  end.

Definition wide_row (p : pyfloat * long_rec) : tidy_rec :=
  let '(tm, l) := p in
  let '(g, r) := wide_label (l_col l) in
  {| time := tm; group := g; replicate := r; value := to_numeric (l_value l) |}.

(** [time_col = lower_map["time"]] *)
Definition wide_time_col (t : raw_table) : string :=
  match lower_map_get (col_names t) "time" with Some c => c | None => "time" end.

(** [value_cols_in_order = [c for c in df.columns if c != time_col]] *)
Definition value_cols_in_order (t : raw_table) : list (string * list cell) :=
  filter (fun p => negb (String.eqb (fst p) (wide_time_col t))) (columns t).

(** [long] after [_coerce_time], [to_numeric] and the labelling, before
    [dropna]. *)
Definition wide_records (t : raw_table) : list tidy_rec :=
  let long := melt (column t (wide_time_col t)) (value_cols_in_order t) in
  let times := _coerce_time (map l_time long) in
  map wide_row (combine times long).

Definition wide_normalize (t : raw_table) : tidy_table :=
  {| categories := Some (group_order_loop (map fst (value_cols_in_order t)) [] []);
     rows := dropna (wide_records t) |}.

(* ------------------------------------------------------------------ *)
(** ** TIDY branch of [read_incucyte_csv] *)

Fixpoint tidy_rows (ts : list pyfloat) (gs : list cell) (rs : list string)
    (vs : list cell) : list tidy_rec :=
  match ts, gs, rs, vs with
  | tm :: ts', g :: gs', r :: rs', v :: vs' =>
      {| time := tm; group := py_str g; replicate := r; value := to_numeric v |}
        :: tidy_rows ts' gs' rs' vs'
  | _, _, _, _ => []
  end.

(** [df] after the renaming, the [replicate] default and the coercions,
    before [dropna]. *)
Definition tidy_records (t : raw_table) : list tidy_rec :=
  let cols := col_names t in
  let pick k := match lower_map_get cols k with Some c => column t c | None => [] end in
  let time_cells := pick "time" in
  let reps :=
    if negb (in_cols_lower cols "replicate") then repeat "R1" (List.length time_cells)
    else map py_str (pick "replicate") in
  tidy_rows (_coerce_time time_cells) (pick "group") reps (pick "value").

Definition tidy_normalize (t : raw_table) : tidy_table :=
  {| categories := None; rows := dropna (tidy_records t) |}.

(* ------------------------------------------------------------------ *)
(** ** [read_incucyte_csv] *)

(** The exceptions [read_incucyte_csv] raises. *)
Inductive read_error : Type :=
| FormatError (msg : string)
    (** the [raise ValueError(msg)] at the end *)
| MeltValueName
    (** [melt] refuses [value_name="value"] when a column is named
        [value] ([ValueError], pandas 2) *)
| MeltDuplicateTime
    (** [melt] with two columns named [time]: [frame.pop("time")] gives a
        [DataFrame] and [melt] fails *)
| NumericOfFrame (col : string).
    (** [pd.to_numeric(df[col])] where [df[col]] is a [DataFrame] because
        two columns are named [col] ([TypeError]) *)

Inductive read_result : Type :=
| ROk (t : tidy_table)
| RErr (e : read_error)
| RDuplicateColumns (cols : list string).
    (** a [DataFrame] returned with two columns named [group] or
        [replicate]; its contents are not modelled *)

Definition format_error : string :=
  "Could not detect wide or tidy format. Need either:
  Wide: 'time' + one column per group
  Tidy: time, group, (replicate), value".

(** the number of columns named [k] *)
Definition count_name (names : list string) (k : string) : nat :=
  List.length (filter (String.eqb k) names).

(** the column names after [df.rename(columns={time_col: "time"})] *)
Definition wide_renamed (t : raw_table) : list string :=
  map (fun c => if String.eqb c (wide_time_col t) then "time" else c) (col_names t).

Definition read_wide (t : raw_table) : read_result :=
  let names := wide_renamed t in
  if existsb (String.eqb "value") names then RErr MeltValueName
  else if Nat.ltb 1 (count_name names "time") then RErr MeltDuplicateTime
  else ROk (wide_normalize t).

Definition opt_is (o : option string) (c : string) : bool :=
  match o with Some c' => String.eqb c' c | None => false end.

(** the new name of column [c] in
    [df.rename(columns={v: k for k, v in lower_map.items() if k in required})] *)
Definition tidy_rename (lm : string -> option string) (c : string) : string :=
  if opt_is (lm "time") c then "time"
  else if opt_is (lm "group") c then "group"
  else if opt_is (lm "value") c then "value"
  else c.

(** the new name of column [c] in
    [df.rename(columns={lower_map["replicate"]: "replicate"})] *)
Definition rep_rename (lm : string -> option string) (c : string) : string :=
  if opt_is (lm "replicate") c then "replicate" else c.

(** the column names after the renaming and the [replicate] default
    ([df["replicate"] = "R1"] adds a column) *)
Definition tidy_renamed (t : raw_table) : list string :=
  let cols := col_names t in
  let lm := lower_map_get cols in
  if in_cols_lower cols "replicate" then map (rep_rename lm) (map (tidy_rename lm) cols)
  else map (tidy_rename lm) cols ++ ["replicate"].

(** The coercions in source order: [time], [group], [replicate], [value]. *)
Definition read_tidy (t : raw_table) : read_result :=
  let names := tidy_renamed t in
  let dup k := Nat.ltb 1 (count_name names k) in
  if dup "time" then RErr (NumericOfFrame "time")
  else if dup "value" then RErr (NumericOfFrame "value")
  else if dup "group" || dup "replicate" then
    RDuplicateColumns (filter dup ["group"; "replicate"])
  else ROk (tidy_normalize t).

Definition read_incucyte_csv (t : raw_table) : read_result :=
  let has := in_cols_lower (col_names t) in
  if has "time" && negb (has "group" && has "replicate" && has "value") then
    read_wide t
  else if has "time" && has "group" && has "value" then
    read_tidy t
  else RErr (FormatError format_error).

(* ------------------------------------------------------------------ *)
(** ** [aggregate_mean_sd]

    DataFrames are mutable Python objects, so the aggregator runs over a
    store of frames: [df.copy()] allocates a new frame, [d["time_bin"] = ...]
    updates the frame [d] in place. *)

(** A frame in the store: the tidy columns and any added float columns. *)
Record frame : Type := {
  f_tidy : tidy_table;
  f_extra : list (string * list pyfloat)
}.

Definition loc : Type := nat.

(** The store, most recent binding of a location first. *)
Definition heap : Type := list (loc * frame).

Definition hget (h : heap) (l : loc) : option frame :=
  match find (fun p => Nat.eqb (fst p) l) h with
  | Some (_, f) => Some f
  | None => None
  end.

Definition hset (h : heap) (l : loc) (f : frame) : heap := (l, f) :: h.

Definition fresh (h : heap) : loc := S (fold_right Nat.max 0%nat (map fst h)).

(** State and failure: [None] is an exception. *)
Definition M (A : Type) : Type := heap -> option (A * heap).

Definition ret {A} (a : A) : M A := fun h => Some (a, h).

Definition bind {A B} (m : M A) (k : A -> M B) : M B :=
  fun h => match m h with Some (a, h') => k a h' | None => None end.

Notation "x <- m ;; k" := (bind m (fun x => k))
  (at level 61, m at next level, right associativity).

Definition raise {A} : M A := fun _ => None.

Definition load (l : loc) : M frame :=
  fun h => match hget h l with Some f => Some (f, h) | None => None end.

(** [df.copy()] *)
Definition df_copy (l : loc) : M loc :=
  fun h =>
    match hget h l with
    | Some f => let l' := fresh h in Some (l', hset h l' f)
    | None => None
    end.

(** [d[name] = vals] *)
Definition set_column (l : loc) (name : string) (vals : list pyfloat) : M unit :=
  fun h =>
    match hget h l with
    | Some f =>
        let ex := (name, vals) :: filter (fun p => negb (String.eqb (fst p) name)) (f_extra f) in
        Some (tt, hset h l {| f_tidy := f_tidy f; f_extra := ex |})
    | None => None
    end.

(** [d[name]] for a float column ([None]: [KeyError]). *)
Definition frame_col (f : frame) (name : string) : option (list pyfloat) :=
  if String.eqb name "time" then Some (map time (rows (f_tidy f)))
  else match find (fun p => String.eqb (fst p) name) (f_extra f) with
       | Some (_, vs) => Some vs
       | None => None
       end.

(** A row of [group_stats]; [g_var] is the sample variance, and the [sd]
    column is its square root, see [g_sd]. *)
Record stats_rec : Type := {
  g_group : string;
  g_time : pyfloat;
  g_mean : pyfloat;
  g_var : pyfloat;
  g_n : nat
}.

(** The [sd] column: [None] stands for NaN. *)
Definition g_sd (s : stats_rec) : option R :=
  match g_var s with
  | PFin v => Some (sqrt (Q2R v))
  | _ => None
  end.

(** Distinct elements, first occurrence kept. *)
Fixpoint uniq {A} (eqb : A -> A -> bool) (seen l : list A) : list A :=
  match l with
  | [] => []
  | a :: l' =>
      if existsb (eqb a) seen then uniq eqb seen l'
      else a :: uniq eqb (a :: seen) l'
  end.

Definition key_eqb (k1 k2 : string * pyfloat) : bool :=
  String.eqb (fst k1) (fst k2) && pf_eqb (snd k1) (snd k2).

Definition pf_sum (vs : list pyfloat) : pyfloat := fold_left pf_add vs (PFin 0).

(** [.agg(mean="mean")] over the non-NaN values *)
Definition pf_mean (vs : list pyfloat) : pyfloat :=
  match vs with
  | [] => PNaN
  | _ => pf_divQ (pf_sum vs) (inject_Z (Z.of_nat (List.length vs)))
  end.

(** [.agg(sd="std")], squared: the sample variance ([ddof=1]) *)
Definition pf_var (vs : list pyfloat) : pyfloat :=
  match vs with
  | [] | [_] => PNaN
  | _ =>
      let m := pf_mean vs in
      pf_divQ (pf_sum (map (fun v => pf_sq (pf_sub v m)) vs))
              (inject_Z (Z.of_nat (List.length vs - 1)%nat))
  end.

(** The non-NaN values of the rows with key [k]. *)
Definition key_values (obs : list (tidy_rec * pyfloat)) (k : string * pyfloat)
  : list pyfloat :=
  filter notna
    (map (fun p => value (fst p))
       (filter (fun p => key_eqb (group (fst p), snd p) k) obs)).

(** [groupby(["group", time_col])] keys.  Rows with a NaN key are left out
    ([dropna=True]).  For a categorical [group] pandas' default
    [observed=False] (pandas 1.x and 2.x) makes the keys all pairs of a
    category and an observed time; for a [str] column they are the observed
    pairs.  pandas sorts the keys ([sort=True]); the order of the rows of
    the result is not modelled. *)
Definition group_keys (t : tidy_table) (obs : list (tidy_rec * pyfloat))
  : list (string * pyfloat) :=
  match categories t with
  | None => uniq key_eqb [] (map (fun p => (group (fst p), snd p)) obs)
  | Some cs =>
      let times := uniq pf_eqb [] (map snd obs) in
      flat_map (fun g => map (fun tm => (g, tm)) times) cs
  end.

(** [d.groupby(["group", time_col], as_index=False)["value"]
      .agg(mean="mean", sd="std", n="count")] renamed to [time]. *)
Definition group_stats (t : tidy_table) (tkey : list pyfloat) : list stats_rec :=
  let obs := filter (fun p => notna (snd p)) (combine (rows t) tkey) in
  map (fun k =>
         let vs := key_values obs k in
         {| g_group := fst k; g_time := snd k; g_mean := pf_mean vs;
            g_var := pf_var vs; g_n := List.length vs |})
      (group_keys t obs).

(** [np.floor(d["time"] / interval_hours) * interval_hours] *)
Definition time_bin (ih : Q) (tm : pyfloat) : pyfloat :=
  pf_mulQ (pf_floor (pf_divQ tm ih)) ih.

Definition aggregate_mean_sd (df : loc) (interval_hours : option Q)
  : M (list stats_rec) :=
  d <- df_copy df ;;
  time_col <-
    (match interval_hours with
     | Some ih =>
         if negb (Qle_bool ih 0) then
           f <- load d ;;
           _ <- set_column d "time_bin" (map (fun r => time_bin ih (time r))
                                              (rows (f_tidy f))) ;;
           ret "time_bin"
         else ret "time"
     | None => ret "time"
     end) ;;
  f <- load d ;;
  match frame_col f time_col with
  | Some tkey => ret (group_stats (f_tidy f) tkey)
  | None => raise
  end.

(* ------------------------------------------------------------------ *)
(** ** Vocabulary of the properties *)

(** The raw table has a column named [k] up to case. *)
Definition has_column (t : raw_table) (k : string) : Prop :=
  exists c, In c (col_names t) /\ lower c = k.

(** The grouping time of [aggregate_mean_sd]: the bin when
    [interval_hours] is positive, the raw time otherwise. *)
Definition time_key (interval_hours : option Q) (tm : pyfloat) : pyfloat :=
  match interval_hours with
  | Some ih => if negb (Qle_bool ih 0) then time_bin ih tm else tm
  | None => tm
  end.

(** The elements of [l] at the positions where they occur for the first
    time, left to right. *)
Definition first_occurrence_order (l : list string) : list string :=
  map fst (filter (fun p => negb (existsb (String.eqb (fst p)) (firstn (snd p) l)))
                  (combine l (seq 0 (List.length l)))).

(** The display order of the groups of a tidy table: the categories of an
    ordered categorical column, else [pd.unique] order of the rows. *)
Definition group_order_of (t : tidy_table) : list string :=
  match categories t with
  | Some cs => cs
  | None => uniq String.eqb [] (map group (rows t))
  end.

(** The non-NaN values of the rows of [t] whose group is [g] and whose
    grouping time (under [kf]) equals [tm]. *)
Definition values_at (t : tidy_table) (kf : pyfloat -> pyfloat) (g : string)
    (tm : pyfloat) : list pyfloat :=
  filter notna (map value (filter (fun r => String.eqb (group r) g &&
                                             pf_eqb (kf (time r)) tm) (rows t))).

(** A categorical group column has distinct categories (pandas refuses
    duplicates). *)
Definition categories_ok (t : tidy_table) : Prop :=
  match categories t with Some cs => NoDup cs | None => True end.

(** A column other than [lower_map[k]] is named exactly [k]: renaming
    [lower_map[k]] to [k] leaves two columns named [k]. *)
Definition clash (t : raw_table) (k : string) : bool :=
  existsb (fun c => String.eqb c k && negb (opt_is (lower_map_get (col_names t) k) c))
          (col_names t).

(** A replicate tag, as characters: [R], [Rep] or [rep] followed by one or
    more decimal digits. *)
Definition rep_tag_form (tag : list (list ascii)) : Prop :=
  exists p d : list (list ascii),
    tag = p ++ d /\
    In p [str_chars "R"; str_chars "Rep"; str_chars "rep"] /\
    d <> [] /\ (forall u, In u d -> is_dec_char u = true).

(** The characters of [name] are [pre ++ "_" ++ tg ++ e]: [pre] holds no
    line break, [tg] is a replicate tag, [e] is empty or one final line
    break; [base] and [tag] are the strings of [pre] and [tg]. *)
Definition rep_suffix_form (name base tag : string) : Prop :=
  exists pre tg e : list (list ascii),
    str_chars name = pre ++ ["_"%char] :: tg ++ e /\
    base = string_of_chars pre /\ tag = string_of_chars tg /\
    (e = [] \/ e = [[newline]]) /\
    ~ In [newline] pre /\
    rep_tag_form tg.

(* ------------------------------------------------------------------ *)
(** ** The Streamlit script

    The data handling of the script run on an uploaded file: the group
    list, the binning setting, the editable group table, the merges, the
    test for the SD band and the legend of the replicate plot.  Drawing and
    widgets are not modelled. *)

(** [groups = list(pd.unique(tidy["group"].astype(str)))] *)
Definition ui_groups (t : tidy_table) : list string :=
  uniq String.eqb [] (map group (rows t)).

Definition default_colors : list string :=
  ["#1f77b4"; "#ff7f0e"; "#2ca02c"; "#d62728"; "#9467bd";
   "#8c564b"; "#e377c2"; "#7f7f7f"; "#bcbd22"; "#17becf"].

(** A row of the group table; [None] is a missing cell (a row added in the
    editor). *)
Record group_row : Type := {
  gr_group : option string;
  gr_display : option string;
  gr_color : option string
}.

(** [pd.DataFrame({"group": groups, "display_name": groups,
    "color": default_colors[: len(groups)]})]; [None] is the [ValueError]
    raised for columns of different lengths. *)
Definition group_table (groups : list string) : option (list group_row) :=
  let colors := firstn (List.length groups) default_colors in
  if Nat.eqb (List.length colors) (List.length groups) then
    Some (map (fun '(g, c) => {| gr_group := Some g; gr_display := Some g; gr_color := Some c |})
              (combine groups colors))
  else None.

Definition opt_str_eqb (a b : option string) : bool :=
  match a, b with
  | Some x, Some y => String.eqb x y
  | None, None => true
  | _, _ => false
  end.

(** [Index.is_unique] *)
Fixpoint all_distinct {A} (eqb : A -> A -> bool) (l : list A) : bool :=
  match l with
  | [] => true
  | a :: l' => negb (existsb (eqb a) l') && all_distinct eqb l'
  end.

(** [left.merge(right, on="group", how="left", validate="many_to_one")]
    with the columns [display_name] and [color] of [right]: every left row
    with each matching right row, or alone with missing cells when none
    matches; [None] is the [MergeError] raised when a key repeats in
    [right]. *)
Definition merge_left {A} (key : A -> string) (left : list A) (right : list group_row)
  : option (list (A * option string * option string)) :=
  if all_distinct opt_str_eqb (map gr_group right) then
    Some (flat_map (fun a =>
            match filter (fun r => opt_str_eqb (Some (key a)) (gr_group r)) right with
            | [] => [(a, None, None)]
            | ms => map (fun r => (a, gr_display r, gr_color r)) ms
            end) left)
  else None.

(** [sub["sd"].notna()] on one row *)
Definition sd_notna (s : stats_rec) : bool :=
  match g_sd s with Some _ => true | None => false end.

(** The band of group [g] is drawn: [error_choice == "SD" and
    sub["sd"].notna().any()] where [sub] holds the rows of [g]. *)
Definition band_drawn (error_choice : string) (stats : list stats_rec) (g : string) : bool :=
  String.eqb error_choice "SD" &&
  existsb (fun s => String.eqb (g_group s) g && sd_notna s) stats.

(** The loop keeping one legend entry per label: [seen] holds the labels
    already kept. *)
Fixpoint dedup_legend {H} (seen : list string) (hl : list (H * string)) : list (H * string) :=
  match hl with
  | [] => []
  | (h, l) :: rest =>
      if existsb (String.eqb l) seen then dedup_legend seen rest
      else (h, l) :: dedup_legend (l :: seen) rest
  end.

(** A row whose group is counted by the grouping: any group for a plain
    column, a category for a categorical one. *)
Definition in_cats (t : tidy_table) (r : tidy_rec) : bool :=
  match categories t with
  | Some cs => existsb (String.eqb (group r)) cs
  | None => true
  end.

(** The left row of a merged row. *)
Definition merged_left {A} (m : A * option string * option string) : A :=
  let '(a, _, _) := m in a.

Definition sum_n (st : list stats_rec) : nat := fold_right (fun s acc => (g_n s + acc)%nat) 0%nat st.

(** Characters of a number matched by the time pattern. *)
Definition num_char (c : ascii) : bool := is_digit c || Ascii.eqb c dot.

(** ** Auxiliary definitions and examples *)

(** The continuation of [rep_suffix_match] after the tag. *)
Definition rep_cont (s s1 s2 s3 : list (list ascii)) : option (string * string) :=
  m_end s3 (fun _ =>
    Some (string_of_chars (firstn (List.length s - List.length s1) s),
          string_of_chars (firstn (List.length s2 - List.length s3) s2))).

(** [first_occurrence_order] of [l] placed after [pre], positions counted from [k]. *)
Definition first_occ_from (pre l : list string) (k : nat) : list string :=
  map fst (filter (fun p => negb (existsb (String.eqb (fst p))
                                          (pre ++ firstn (snd p - k) l)))
                  (combine l (seq k (List.length l)))).

(** A TIDY table whose first [B] row has an unparseable value. *)
Definition tidy_drop_example : raw_table :=
  {| columns := [("time", [CNum (PFin 0) "0.0"; CNum (PFin 0) "0.0"; CNum (PFin 1) "1.0"]);
                 ("group", [CStr "B"; CStr "A"; CStr "B"]);
                 ("replicate", [CStr "R1"; CStr "R1"; CStr "R1"]);
                 ("value", [CStr "x"; CStr "1"; CStr "2"])] |}.

(** A WIDE table with the value [inf]. *)
Definition inf_value_example : raw_table :=
  {| columns := [("Time", [CNum (PFin 0) "0"]); ("A", [CNum PInf "inf"])] |}.

(** The rows with their time keys, NaN keys left out. *)
Definition obs_of (t : tidy_table) (kf : pyfloat -> pyfloat) : list (tidy_rec * pyfloat) :=
  filter (fun p => notna (snd p)) (map (fun r => (r, kf (time r))) (rows t)).

(** The statistics in the words of the specification, over rationals. *)
Definition q_sum (qs : list Q) : Q := fold_left Qplus qs 0.

Definition spec_mean (qs : list Q) : Q :=
  q_sum qs / inject_Z (Z.of_nat (List.length qs)).

Definition spec_sample_var (qs : list Q) : Q :=
  let m := spec_mean qs in
  q_sum (map (fun q => (q - m) * (q - m)) qs) / inject_Z (Z.of_nat (List.length qs - 1)).

(** Stored tidy tables used as examples. *)
Definition two_obs_frame : frame :=
  {| f_tidy := {| categories := None;
                  rows := [{| time := PFin 0; group := "A"; replicate := "R1"; value := PFin 1 |};
                           {| time := PFin 0; group := "A"; replicate := "R2"; value := PFin 3 |}] |};
     f_extra := [] |}.

Definition one_obs_frame : frame :=
  {| f_tidy := {| categories := None;
                  rows := [{| time := PFin 0; group := "A"; replicate := "R1"; value := PFin 1 |}] |};
     f_extra := [] |}.

Definition unobserved_category_raw : raw_table :=
  {| columns := [("Time", [CNum (PFin 0) "0"]); ("A", [CNum (PFin 1) "1"]); ("B", [cnan])] |}.

Definition unobserved_category_frame : frame :=
  {| f_tidy := {| categories := Some ["A"; "B"];
                  rows := [{| time := PFin 0; group := "A"; replicate := "R1"; value := PFin 1 |}] |};
     f_extra := [] |}.
(** A WIDE table with two columns whose lower-cased name is [time]. *)
Definition two_time_columns_raw : raw_table :=
  {| columns := [("Time", [CNum (PFin 0) "0"]); ("time", [CNum (PFin 2) "2"]);
                 ("A", [CNum (PFin 1) "1"])] |}.

(** U+0661 ARABIC-INDIC DIGIT ONE, bytes D9 A1. *)
Definition arabic_indic_one : string :=
  String (ascii_of_nat 217) (String (ascii_of_nat 161) EmptyString).

(** A table with the columns [time], [group] and [value] and one row,
    spelled in lower case or in capitals. *)
Definition time_group_value_raw : raw_table :=
  {| columns := [("time", [CNum (PFin 0) "0"]); ("group", [CStr "A"]);
                 ("value", [CNum (PFin 1) "1"])] |}.

Definition Time_Group_Value_raw : raw_table :=
  {| columns := [("Time", [CNum (PFin 0) "0"]); ("Group", [CStr "A"]);
                 ("Value", [CNum (PFin 1) "1"])] |}.





(* ================================================================== *)
(** * Proofs *)

(** ** Column detection *)

Lemma in_cols_lower_spec (t : raw_table) (k : string) :
  in_cols_lower (col_names t) k = true <-> has_column t k.
Proof.
  unfold in_cols_lower, has_column. rewrite existsb_exists.
  split; intros [c [Hin Heq]]; exists c; split; auto.
  - now apply String.eqb_eq.
  - now apply String.eqb_eq.
Qed.

Lemma in_cols_lower_false (t : raw_table) (k : string) :
  in_cols_lower (col_names t) k = false <-> ~ has_column t k.
Proof.
  rewrite <- in_cols_lower_spec. destruct (in_cols_lower _ _); intuition congruence.
Qed.

Ltac col_cases t :=
  destruct (in_cols_lower (col_names t) "time") eqn:?Ht;
  destruct (in_cols_lower (col_names t) "group") eqn:?Hg;
  destruct (in_cols_lower (col_names t) "replicate") eqn:?Hr;
  destruct (in_cols_lower (col_names t) "value") eqn:?Hv;
  repeat match goal with
  | H : in_cols_lower _ _ = true |- _ => apply in_cols_lower_spec in H
  | H : in_cols_lower _ _ = false |- _ => apply in_cols_lower_false in H
  end.

(** The three branches of the format detection. *)
Lemma read_branches (t : raw_table) :
  (has_column t "time" /\
   ~ (has_column t "group" /\ has_column t "replicate" /\ has_column t "value") ->
   read_incucyte_csv t = read_wide t) /\
  (~ (has_column t "time" /\
      ~ (has_column t "group" /\ has_column t "replicate" /\ has_column t "value")) /\
   has_column t "time" /\ has_column t "group" /\ has_column t "value" ->
   read_incucyte_csv t = read_tidy t) /\
  (~ (has_column t "time" /\
      ~ (has_column t "group" /\ has_column t "replicate" /\ has_column t "value")) /\
   ~ (has_column t "time" /\ has_column t "group" /\ has_column t "value") ->
   read_incucyte_csv t = RErr (FormatError format_error)).
Proof.
  unfold read_incucyte_csv.
  repeat split; col_cases t; simpl; intros; try reflexivity; tauto.
Qed.

Lemma lower_map_get_none (cols : list string) (k : string) :
  lower_map_get cols k = None -> Forall (fun x => lower x <> k) cols.
Proof.
  induction cols as [|c cs IH]; simpl; intros H; [constructor|].
  destruct (lower_map_get cs k); [discriminate|].
  destruct (String.eqb (lower c) k) eqn:E; [discriminate|].
  constructor; [apply String.eqb_neq; exact E | apply IH; reflexivity].
Qed.

Lemma lower_map_get_some (cols : list string) (k c : string) :
  lower_map_get cols k = Some c ->
  exists pre post, cols = pre ++ c :: post /\ lower c = k /\
                   Forall (fun x => lower x <> k) post.
Proof.
  induction cols as [|c0 cs IH]; simpl; intros H; [discriminate|].
  destruct (lower_map_get cs k) as [c'|] eqn:E.
  - injection H as <-. destruct (IH eq_refl) as (pre & post & -> & Hl & Hf).
    exists (c0 :: pre), post. auto.
  - destruct (String.eqb (lower c0) k) eqn:Ec; [|discriminate].
    injection H as <-. apply String.eqb_eq in Ec.
    exists [], cs. split; [reflexivity|]. split; [exact Ec|].
    apply lower_map_get_none. exact E.
Qed.

Lemma lower_map_get_in (cols : list string) (k c : string) :
  lower_map_get cols k = Some c -> In c cols /\ lower c = k.
Proof.
  intros H. destruct (lower_map_get_some _ _ _ H) as (pre & post & -> & Hl & _).
  split; [apply in_or_app; right; left; reflexivity | exact Hl].
Qed.

Lemma lower_map_get_has (t : raw_table) (k : string) :
  has_column t k -> exists c, lower_map_get (col_names t) k = Some c.
Proof.
  intros [c [Hin Hl]]. destruct (lower_map_get (col_names t) k) as [c'|] eqn:E.
  - exists c'. reflexivity.
  - apply lower_map_get_none in E. rewrite Forall_forall in E.
    destruct (E c Hin Hl).
Qed.

Lemma opt_is_some (o : option string) (c : string) : opt_is o c = true <-> o = Some c.
Proof.
  destruct o as [c'|]; simpl; [|split; discriminate].
  rewrite String.eqb_eq. split; congruence.
Qed.

Lemma opt_is_lower (cols : list string) (k c : string) :
  opt_is (lower_map_get cols k) c = true -> lower c = k.
Proof. intros H. apply opt_is_some, lower_map_get_in in H. apply H. Qed.

Lemma count_name_map (f : string -> string) (l : list string) (k : string) :
  count_name (map f l) k = List.length (filter (fun c => String.eqb k (f c)) l).
Proof.
  unfold count_name. induction l as [|c l IH]; simpl; [reflexivity|].
  destruct (String.eqb k (f c)); simpl; rewrite IH; reflexivity.
Qed.

(** Among pairwise distinct names, the ones selected by [f] are [p] and
    possibly [k]: two of them exactly when [k] is present and is not [p]. *)
Lemma filter_two_names (l : list string) (f : string -> bool) (p k : string) :
  NoDup l -> In p l ->
  (forall c, In c l -> f c = true <-> c = p \/ c = k) ->
  Nat.ltb 1 (List.length (filter f l)) =
  existsb (fun c => String.eqb c k && negb (String.eqb p c)) l.
Proof.
  intros Hnd Hp Hf.
  destruct (existsb _ l) eqn:E.
  - apply existsb_exists in E as (c & Hc & E).
    apply andb_true_iff in E as [E1 E2]. apply String.eqb_eq in E1. subst c.
    apply negb_true_iff, String.eqb_neq in E2.
    apply Nat.ltb_lt.
    assert (H2 : (List.length [p; k] <= List.length (filter f l))%nat).
    { apply NoDup_incl_length.
      - constructor; [simpl; intuition congruence | constructor; [simpl; tauto | constructor]].
      - intros x [<-|[<-|[]]]; apply filter_In; split; auto; apply Hf; auto. }
    simpl in H2. lia.
  - apply Nat.ltb_ge.
    assert (H1 : (List.length (filter f l) <= List.length [p])%nat).
    { apply NoDup_incl_length; [apply NoDup_filter; exact Hnd|].
      intros x Hx. apply filter_In in Hx as [Hx Hfx].
      apply (Hf x Hx) in Hfx. left.
      destruct Hfx as [-> | ->]; [reflexivity|].
      destruct (String.eqb p k) eqn:Epk; [apply String.eqb_eq; exact Epk|].
      assert (existsb (fun c => String.eqb c k && negb (String.eqb p c)) l = true)
        as Hc by (apply existsb_exists; exists k; split; [exact Hx|];
                  rewrite String.eqb_refl, Epk; reflexivity).
      congruence. }
    simpl in H1. lia.
Qed.

Lemma lower_time : lower "time" = "time". Proof. reflexivity. Qed.
Lemma lower_group : lower "group" = "group". Proof. reflexivity. Qed.
Lemma lower_value : lower "value" = "value". Proof. reflexivity. Qed.
Lemma lower_replicate : lower "replicate" = "replicate". Proof. reflexivity. Qed.

Ltac key_lowers :=
  repeat match goal with
  | H : opt_is (lower_map_get _ _) _ = true |- _ =>
      let H' := fresh "Hl" in pose proof (opt_is_lower _ _ _ H) as H'; revert H
  end; intros;
  repeat match goal with
  | H : lower "time" = _ |- _ => rewrite lower_time in H
  | H : lower "group" = _ |- _ => rewrite lower_group in H
  | H : lower "value" = _ |- _ => rewrite lower_value in H
  | H : lower "replicate" = _ |- _ => rewrite lower_replicate in H
  end.

(** The names that the TIDY renaming turns into a key [k]. *)
Lemma tidy_rename_key (cols : list string) (c k : string) :
  In k ["time"; "group"; "value"] ->
  (tidy_rename (lower_map_get cols) c = k <->
   opt_is (lower_map_get cols k) c = true \/ c = k).
Proof.
  intros Hk. unfold tidy_rename.
  destruct (opt_is (lower_map_get cols "time") c) eqn:E1;
  [|destruct (opt_is (lower_map_get cols "group") c) eqn:E2;
    [|destruct (opt_is (lower_map_get cols "value") c) eqn:E3]];
  destruct Hk as [<-|[<-|[<-|[]]]]; key_lowers;
  split; intros H; try (left; assumption); try (right; congruence);
  try congruence;
  destruct H as [H|H]; subst; key_lowers; try congruence.
Qed.

Lemma tidy_rename_replicate (cols : list string) (c : string) :
  tidy_rename (lower_map_get cols) c = "replicate" <-> c = "replicate".
Proof.
  unfold tidy_rename.
  destruct (opt_is (lower_map_get cols "time") c) eqn:E1;
  [|destruct (opt_is (lower_map_get cols "group") c) eqn:E2;
    [|destruct (opt_is (lower_map_get cols "value") c) eqn:E3]];
  key_lowers; split; intros H; subst; key_lowers; congruence.
Qed.

Lemma rep_rename_key (cols : list string) (c k : string) :
  In k ["time"; "group"; "value"] ->
  (rep_rename (lower_map_get cols) (tidy_rename (lower_map_get cols) c) = k <->
   tidy_rename (lower_map_get cols) c = k).
Proof.
  intros Hk. unfold rep_rename.
  destruct (opt_is (lower_map_get cols "replicate") _) eqn:E; [|tauto].
  pose proof (opt_is_lower _ _ _ E) as Hl.
  split; intros H; [destruct Hk as [<-|[<-|[<-|[]]]]; discriminate|].
  rewrite H in Hl. destruct Hk as [<-|[<-|[<-|[]]]]; key_lowers; discriminate.
Qed.

Lemma rep_rename_replicate (cols : list string) (c : string) :
  rep_rename (lower_map_get cols) (tidy_rename (lower_map_get cols) c) = "replicate" <->
  opt_is (lower_map_get cols "replicate") c = true \/ c = "replicate".
Proof.
  unfold rep_rename.
  destruct (opt_is (lower_map_get cols "replicate") (tidy_rename _ c)) eqn:E.
  - pose proof (opt_is_lower _ _ _ E) as Hl.
    assert (Hc : tidy_rename (lower_map_get cols) c = c).
    { unfold tidy_rename in *.
      destruct (opt_is (lower_map_get cols "time") c); [key_lowers; discriminate|].
      destruct (opt_is (lower_map_get cols "group") c); [key_lowers; discriminate|].
      destruct (opt_is (lower_map_get cols "value") c); [key_lowers; discriminate|].
      reflexivity. }
    rewrite Hc in E. tauto.
  - rewrite tidy_rename_replicate. split; [tauto|].
    intros [H|H]; [|exact H].
    assert (Hc : tidy_rename (lower_map_get cols) c = c).
    { pose proof (opt_is_lower _ _ _ H) as Hl. unfold tidy_rename.
      destruct (opt_is (lower_map_get cols "time") c) eqn:?; [key_lowers; congruence|].
      destruct (opt_is (lower_map_get cols "group") c) eqn:?; [key_lowers; congruence|].
      destruct (opt_is (lower_map_get cols "value") c) eqn:?; [key_lowers; congruence|].
      reflexivity. }
    rewrite Hc in E. congruence.
Qed.

Lemma existsb_map_in {A B} (f : B -> bool) (g : A -> B) (h : A -> bool) (l : list A) :
  (forall x, In x l -> f (g x) = h x) -> existsb f (map g l) = existsb h l.
Proof.
  induction l as [|x l IH]; simpl; intros H; [reflexivity|].
  rewrite H by auto. rewrite IH by auto. reflexivity.
Qed.

Lemma length_filter_none {A} (f : A -> bool) (l : list A) :
  (forall x, In x l -> f x = false) -> List.length (filter f l) = 0%nat.
Proof.
  induction l as [|x l IH]; simpl; intros H; [reflexivity|].
  rewrite H by auto. apply IH. auto.
Qed.

Lemma count_name_app (l1 l2 : list string) (k : string) :
  count_name (l1 ++ l2) k = (count_name l1 k + count_name l2 k)%nat.
Proof. unfold count_name. rewrite filter_app, length_app. reflexivity. Qed.

(** The WIDE branch fails when a column is named [value], or when a column
    other than the time column is named [time]; column names of a
    [DataFrame] read from a CSV are pairwise distinct. *)
Lemma read_wide_spec (t : raw_table) :
  has_column t "time" -> NoDup (col_names t) ->
  read_wide t =
    if existsb (String.eqb "value") (col_names t) then RErr MeltValueName
    else if clash t "time" then RErr MeltDuplicateTime
    else ROk (wide_normalize t).
Proof.
  intros Ht Hnd.
  destruct (lower_map_get_has t "time" Ht) as [tc Etc].
  destruct (lower_map_get_in _ _ _ Etc) as [Hin Hl].
  assert (Hw : wide_time_col t = tc) by (unfold wide_time_col; rewrite Etc; reflexivity).
  unfold read_wide, wide_renamed, clash. rewrite Hw, Etc. cbn [opt_is].
  rewrite (existsb_map_in _ _ (String.eqb "value")).
  2:{ intros c _. destruct (String.eqb c tc) eqn:E; [|reflexivity].
      apply String.eqb_eq in E. subst c.
      destruct (String.eqb "value" tc) eqn:E; [|reflexivity].
      apply String.eqb_eq in E. rewrite <- E, lower_value in Hl. discriminate. }
  destruct (existsb (String.eqb "value") (col_names t)); [reflexivity|].
  rewrite count_name_map, (filter_two_names _ _ tc "time"); auto.
  intros c _. rewrite String.eqb_eq.
  destruct (String.eqb c tc) eqn:E.
  - apply String.eqb_eq in E. subst c. tauto.
  - apply String.eqb_neq in E. split; [intros ->; tauto|].
    intros [H|H]; [contradiction|congruence].
Qed.

Lemma tidy_name_key (cols : list string) (c k : string) :
  In k ["time"; "group"; "value"; "replicate"] ->
  (String.eqb k (rep_rename (lower_map_get cols) (tidy_rename (lower_map_get cols) c)) = true
   <-> opt_is (lower_map_get cols k) c = true \/ c = k).
Proof.
  intros Hk. rewrite String.eqb_eq.
  destruct Hk as [<-|[<-|[<-|[<-|[]]]]].
  4: split; intros H;
       [symmetry in H; apply rep_rename_replicate in H; exact H
       | symmetry; apply rep_rename_replicate; exact H].
  all: split; intros H;
    [symmetry in H; apply rep_rename_key in H; [apply tidy_rename_key in H; [exact H|]|]
    | symmetry; apply rep_rename_key; [|apply tidy_rename_key; [|exact H]]];
    simpl; tauto.
Qed.

Lemma tidy_name_key_norep (cols : list string) (c k : string) :
  In k ["time"; "group"; "value"] ->
  (String.eqb k (tidy_rename (lower_map_get cols) c) = true
   <-> opt_is (lower_map_get cols k) c = true \/ c = k).
Proof.
  intros Hk. rewrite String.eqb_eq. split; intros H.
  - symmetry in H. apply tidy_rename_key in H; assumption.
  - symmetry. apply tidy_rename_key; assumption.
Qed.

(** With pairwise distinct column names, the renaming of the TIDY branch
    leaves two columns named [k] exactly when [clash t k]. *)
Lemma read_tidy_dup (t : raw_table) (k : string) :
  has_column t "time" -> has_column t "group" -> has_column t "value" ->
  NoDup (col_names t) -> In k ["time"; "group"; "value"; "replicate"] ->
  Nat.ltb 1 (count_name (tidy_renamed t) k) = clash t k.
Proof.
  intros Ht Hg Hv Hnd Hk. unfold tidy_renamed, clash.
  destruct (in_cols_lower (col_names t) "replicate") eqn:Er.
  - apply in_cols_lower_spec in Er.
    assert (Hhas : has_column t k) by (destruct Hk as [<-|[<-|[<-|[<-|[]]]]]; assumption).
    destruct (lower_map_get_has t k Hhas) as [p Ep].
    destruct (lower_map_get_in _ _ _ Ep) as [Hp _].
    rewrite map_map, count_name_map, (filter_two_names _ _ p k Hnd Hp).
    + rewrite Ep. reflexivity.
    + intros c _. rewrite tidy_name_key by exact Hk. rewrite Ep, opt_is_some.
      split; intros [H|H]; [left; congruence|right; exact H|left; congruence|right; exact H].
  - apply in_cols_lower_false in Er. rewrite count_name_app.
    destruct Hk as [Hk|[Hk|[Hk|[Hk|[]]]]].
    4:{ subst k. rewrite count_name_map, length_filter_none.
        - simpl. symmetry. apply not_true_iff_false. intros H.
          apply existsb_exists in H as (c & Hc & H). apply andb_true_iff in H as [H _].
          apply String.eqb_eq in H. subst c. apply Er. exists "replicate".
          split; [exact Hc | reflexivity].
        - intros c Hc. destruct (String.eqb _ _) eqn:E; [|reflexivity]. exfalso.
          apply String.eqb_eq in E. symmetry in E. apply tidy_rename_replicate in E.
          subst c. apply Er. exists "replicate". split; [exact Hc | reflexivity]. }
    all: assert (Hhas : has_column t k) by (subst k; assumption).
    all: destruct (lower_map_get_has t k Hhas) as [p Ep];
         destruct (lower_map_get_in _ _ _ Ep) as [Hp _].
    all: assert (H0 : count_name ["replicate"] k = 0%nat) by (subst k; reflexivity).
    all: rewrite H0, Nat.add_0_r, count_name_map, (filter_two_names _ _ p k Hnd Hp);
         [rewrite Ep; reflexivity|].
    all: intros c _; rewrite tidy_name_key_norep by (subst k; simpl; tauto);
         rewrite Ep, opt_is_some;
         split; intros [H|H]; [left; congruence|right; exact H|left; congruence|right; exact H].
Qed.

(** The TIDY branch fails when the renaming leaves two columns named
    [time] or [value], and returns a table with two columns of the same name
    when it leaves two named [group] or [replicate]. *)
Lemma read_tidy_spec (t : raw_table) :
  has_column t "time" -> has_column t "group" -> has_column t "value" ->
  NoDup (col_names t) ->
  read_tidy t =
    if clash t "time" then RErr (NumericOfFrame "time")
    else if clash t "value" then RErr (NumericOfFrame "value")
    else if clash t "group" || clash t "replicate" then
      RDuplicateColumns (filter (clash t) ["group"; "replicate"])
    else ROk (tidy_normalize t).
Proof.
  intros Ht Hg Hv Hnd. unfold read_tidy. cbn [filter].
  rewrite !read_tidy_dup by (auto; simpl; tauto). reflexivity.
Qed.



(** C2: a table with [time], [group] and [value] columns but no
    [replicate] column never reaches the TIDY branch: it goes to the WIDE
    branch.  Spelled [time,group,value] the read then fails (melt refuses
    the column [value]); spelled [Time,Group,Value] it is read as WIDE, with
    [Group] and [Value] taken as two series. *)
Theorem read_without_replicate_is_wide :
  (forall t : raw_table,
     has_column t "time" -> has_column t "group" -> has_column t "value" ->
     ~ has_column t "replicate" ->
     read_incucyte_csv t = read_wide t) /\
  read_incucyte_csv time_group_value_raw = RErr MeltValueName /\
  read_incucyte_csv Time_Group_Value_raw
  = ROk {| categories := Some ["Group"; "Value"];
           rows := [{| time := PFin 0; group := "Value"; replicate := "R1";
                       value := PFin 1 |}] |}.
Proof.
  split.
  - intros t Ht Hg Hv Hr. apply (read_branches t). tauto.
  - split; reflexivity.
Qed.

(** ** [_coerce_time] *)

(** C3: time coercion is all or nothing: when every value parses directly
    the parsed values are returned, otherwise every value goes through the
    extraction of its first decimal number; the two examples of the spec,
    and values in exponent notation or with blanks, which parse directly. *)
Theorem coerce_time_all_or_nothing :
  (forall col : list cell,
     forallb notna (map to_numeric col) = true ->
     _coerce_time col = map to_numeric col) /\
  (forall col : list cell,
     forallb notna (map to_numeric col) = false ->
     _coerce_time col = map extract_time col) /\
  _coerce_time [CStr "12h"; CStr "7.5 hrs"; CStr "bad"]
    = [PFin 12; PFin (75 # 10); PNaN] /\
  forallb notna (map to_numeric [CStr "1"; CStr "2"; CStr "x"]) = false /\
  _coerce_time [CStr "1"; CStr "2"; CStr "x"]
    = map extract_time [CStr "1"; CStr "2"; CStr "x"] /\
  _coerce_time [CStr "-1"; CStr "2"; CStr "x"] = [PFin 1; PFin 2; PNaN] /\
  _coerce_time [CStr "1e3"; CStr " 2 "; CStr "-2.5E-1"] = [PFin 1000; PFin 2; PFin (-25 # 100)].
Proof.
  repeat split.
  - intros col H. unfold _coerce_time. now rewrite H.
  - intros col H. unfold _coerce_time. now rewrite H.
Qed.

(** ** The backtracking matcher *)

Section MatcherFacts.
Context {C R : Type}.

Lemma m_star_sound (p : C -> bool) (k : list C -> option R) :
  forall s r, m_star p s k = Some r ->
  exists pre suf, s = pre ++ suf /\ Forall (fun c => p c = true) pre /\
                  k suf = Some r.
Proof.
  induction s as [|c s IH]; simpl; intros r H.
  - exists [], []. auto.
  - destruct (p c) eqn:Hp.
    + revert H. case_eq (m_star p s k).
      * intros r' Hm H. inversion H; subst.
        destruct (IH _ Hm) as (pre & suf & -> & Hf & Hk).
        exists (c :: pre), suf. auto.
      * intros _ H. exists [], (c :: s). auto.
    + exists [], (c :: s). auto.
Qed.

Lemma m_star_complete (p : C -> bool) (k : list C -> option R) :
  forall pre suf, Forall (fun c => p c = true) pre -> k suf <> None ->
  m_star p (pre ++ suf) k <> None.
Proof.
  induction pre as [|c pre IH]; simpl; intros suf Hf Hk.
  - destruct suf as [|c s]; simpl; [assumption|].
    destruct (p c); [|assumption].
    destruct (m_star p s k); [discriminate|assumption].
  - inversion Hf; subst. rewrite H1.
    specialize (IH suf H2 Hk).
    destruct (m_star p (pre ++ suf) k); [discriminate|contradiction].
Qed.

Lemma m_word_sound (eqb : C -> C -> bool) (w : list C) (k : list C -> option R) :
  (forall a b, eqb a b = true -> a = b) ->
  forall s r, m_word eqb w s k = Some r -> exists suf, s = w ++ suf /\ k suf = Some r.
Proof.
  intros Heqb. induction w as [|c w IH]; simpl; intros s r H.
  - eauto.
  - destruct s as [|c' s]; simpl in H; [discriminate|].
    destruct (eqb c c') eqn:E; [|discriminate].
    apply Heqb in E; subst.
    destruct (IH _ _ H) as (suf & -> & Hk). eauto.
Qed.

Lemma m_word_app (eqb : C -> C -> bool) (w : list C) (k : list C -> option R) suf :
  (forall a, eqb a a = true) ->
  m_word eqb w (w ++ suf) k = k suf.
Proof.
  intros Hrefl. induction w as [|c w IH]; simpl; [reflexivity|].
  rewrite Hrefl. apply IH.
Qed.

Lemma m_plus_sound (p : C -> bool) (k : list C -> option R) s r :
  m_plus p s k = Some r ->
  exists d suf, s = d ++ suf /\ d <> [] /\ Forall (fun c => p c = true) d /\
                k suf = Some r.
Proof.
  unfold m_plus, m_one. destruct s as [|c s]; [discriminate|].
  destruct (p c) eqn:Hp; [|discriminate]. intros H.
  destruct (m_star_sound p k s r H) as (pre & suf & -> & Hf & Hk).
  exists (c :: pre), suf. repeat split; auto. discriminate.
Qed.

Lemma m_plus_complete (p : C -> bool) (k : list C -> option R) d suf :
  d <> [] -> Forall (fun c => p c = true) d -> k suf <> None ->
  m_plus p (d ++ suf) k <> None.
Proof.
  destruct d as [|c d]; [contradiction|]. intros _ Hf Hk.
  inversion Hf; subst. unfold m_plus, m_one. simpl. rewrite H1.
  now apply m_star_complete.
Qed.
End MatcherFacts.

(** ** The replicate-suffix regex *)

Lemma char_eqb_eq (u v : list ascii) : char_eqb u v = true <-> u = v.
Proof. unfold char_eqb. destruct (list_eq_dec ascii_dec u v); split; congruence. Qed.

Lemma char_eqb_refl (u : list ascii) : char_eqb u u = true.
Proof. now apply char_eqb_eq. Qed.

Lemma rep_suffix_match_unfold (name : string) :
  rep_suffix_match name =
  let s := str_chars name in
  m_star not_newline s (fun s1 =>
    m_one (char_eqb ["_"%char]) s1 (fun s2 => rep_tag s2 (rep_cont s s1 s2))).
Proof. reflexivity. Qed.

Lemma firstn_length_app {A} (pre suf : list A) :
  firstn (List.length (pre ++ suf) - List.length suf) (pre ++ suf) = pre.
Proof.
  rewrite length_app. replace (List.length pre + List.length suf - List.length suf)%nat
    with (List.length pre) by lia.
  rewrite firstn_app, firstn_all, Nat.sub_diag. simpl. apply app_nil_r.
Qed.

Lemma rep_tag_sound {R} (s : list (list ascii)) (k : list (list ascii) -> option R) r :
  rep_tag s k = Some r ->
  exists tg s3, s = tg ++ s3 /\ rep_tag_form tg /\ k s3 = Some r.
Proof.
  unfold rep_tag.
  assert (Halt : forall w, In w [str_chars "R"; str_chars "Rep"; str_chars "rep"] ->
            m_word char_eqb w s (fun s1 => m_plus is_dec_char s1 k) = Some r ->
            exists tg s3, s = tg ++ s3 /\ rep_tag_form tg /\ k s3 = Some r).
  { intros w Hw H.
    destruct (m_word_sound _ _ _ (fun a b => proj1 (char_eqb_eq a b)) _ _ H)
      as (suf & -> & Hp).
    destruct (m_plus_sound _ _ _ _ Hp) as (d & s3 & -> & Hd & Hf & Hk).
    exists (w ++ d), s3. split; [apply app_assoc|]. split; [|exact Hk].
    exists w, d. repeat split; auto. intros c Hc. now apply (proj1 (Forall_forall _ _) Hf). }
  destruct (m_word char_eqb (str_chars "R") s _) eqn:E1.
  - intros H; inversion H; subst. apply (Halt _ (or_introl eq_refl) E1).
  - destruct (m_word char_eqb (str_chars "Rep") s _) eqn:E2.
    + intros H; inversion H; subst. apply (Halt _ (or_intror (or_introl eq_refl)) E2).
    + intros H. apply (Halt _ (or_intror (or_intror (or_introl eq_refl))) H).
Qed.

Lemma rep_tag_complete {R} (tg s3 : list (list ascii)) (k : list (list ascii) -> option R) :
  rep_tag_form tg -> k s3 <> None -> rep_tag (tg ++ s3) k <> None.
Proof.
  intros (p & d & -> & Hp & Hd & Hdig) Hk. unfold rep_tag.
  assert (Hplus : m_plus is_dec_char (d ++ s3) k <> None).
  { apply m_plus_complete; auto. apply Forall_forall. exact Hdig. }
  rewrite <- app_assoc.
  destruct Hp as [<- | [<- | [<- | []]]].
  - rewrite (m_word_app char_eqb (str_chars "R")) by apply char_eqb_refl.
    destruct (m_plus is_dec_char (d ++ s3) k); [discriminate | contradiction].
  - destruct (m_word char_eqb (str_chars "R") _ _); [discriminate|].
    rewrite (m_word_app char_eqb (str_chars "Rep")) by apply char_eqb_refl.
    destruct (m_plus is_dec_char (d ++ s3) k); [discriminate | contradiction].
  - destruct (m_word char_eqb (str_chars "R") _ _); [discriminate|].
    destruct (m_word char_eqb (str_chars "Rep") _ _); [discriminate|].
    rewrite (m_word_app char_eqb (str_chars "rep")) by apply char_eqb_refl. exact Hplus.
Qed.

Lemma rep_suffix_match_sound (name b tag : string) :
  rep_suffix_match name = Some (b, tag) -> rep_suffix_form name b tag.
Proof.
  rewrite rep_suffix_match_unfold. cbv zeta. intros H.
  destruct (m_star_sound _ _ _ _ H) as (pre & s1 & Hs & Hpre & H1).
  destruct s1 as [|u s2]; [discriminate|]. unfold m_one in H1.
  destruct (char_eqb ["_"%char] u) eqn:Eu; [|discriminate].
  apply char_eqb_eq in Eu; subst u.
  destruct (rep_tag_sound _ _ _ H1) as (tg & s3 & -> & Htg & H3).
  unfold rep_cont, m_end in H3. destruct (at_end s3) eqn:Ee; [|discriminate].
  inversion H3; subst b tag. clear H3 H1 H.
  rewrite Hs.
  change (S (List.length (tg ++ s3))) with (List.length (["_"%char] :: tg ++ s3)).
  rewrite !firstn_length_app.
  exists pre, tg, s3. repeat split.
  - exact Hs.
  - destruct s3 as [|u [|u' s3]]; simpl in Ee; try discriminate; auto.
    apply char_eqb_eq in Ee. subst. auto.
  - intros Hc. rewrite Forall_forall in Hpre.
    specialize (Hpre _ Hc). unfold not_newline in Hpre.
    rewrite char_eqb_refl in Hpre. discriminate.
  - exact Htg.
Qed.

Lemma underscore_not_in_tag (tg e : list (list ascii)) :
  rep_tag_form tg -> (e = [] \/ e = [[newline]]) -> ~ In ["_"%char] (tg ++ e).
Proof.
  intros (p & d & -> & Hp & _ & Hdig) He Hin.
  apply in_app_or in Hin as [Hin | Hin].
  - apply in_app_or in Hin as [Hin | Hin].
    + destruct Hp as [<- | [<- | [<- | []]]]; simpl in Hin;
        repeat (destruct Hin as [Hin | Hin]; [discriminate Hin|]); exact Hin.
    + specialize (Hdig _ Hin). discriminate Hdig.
  - destruct He as [-> | ->]; simpl in Hin; [exact Hin|].
    destruct Hin as [Hin | []]. discriminate Hin.
Qed.

Lemma split_at_underscore {A} (x : A) (b1 b2 w1 w2 : list A) :
  b1 ++ x :: w1 = b2 ++ x :: w2 ->
  ~ In x w1 -> ~ In x w2 -> b1 = b2 /\ w1 = w2.
Proof.
  revert b2. induction b1 as [|c b1 IH]; intros [|c' b2] H H1 H2;
    simpl in H; inversion H; subst.
  - auto.
  - exfalso. apply H1. apply in_or_app. right. left. reflexivity.
  - exfalso. apply H2. apply in_or_app. right. left. reflexivity.
  - destruct (IH b2 H4 H1 H2) as [-> ->]. auto.
Qed.

Lemma tag_end_unique (t1 t2 e1 e2 : list (list ascii)) :
  rep_tag_form t1 -> rep_tag_form t2 ->
  (e1 = [] \/ e1 = [[newline]]) -> (e2 = [] \/ e2 = [[newline]]) ->
  t1 ++ e1 = t2 ++ e2 -> t1 = t2.
Proof.
  assert (Hlast : forall t u, rep_tag_form t -> t <> u ++ [[newline]]).
  { intros t u (p & d & -> & _ & Hd & Hdig) Heq.
    destruct (exists_last Hd) as (d' & x & ->).
    rewrite app_assoc in Heq. apply app_inj_tail in Heq as [_ ->].
    assert (Hx : is_dec_char [newline] = true) by (apply Hdig; apply in_or_app; right; left; auto).
    discriminate Hx. }
  intros H1 H2 [-> | ->] [-> | ->]; rewrite ?app_nil_r; intros H.
  - exact H.
  - exfalso. exact (Hlast _ _ H1 H).
  - exfalso. exact (Hlast _ _ H2 (eq_sym H)).
  - eapply app_inv_tail. exact H.
Qed.

Lemma rep_suffix_form_unique (name b1 t1 b2 t2 : string) :
  rep_suffix_form name b1 t1 -> rep_suffix_form name b2 t2 -> b1 = b2 /\ t1 = t2.
Proof.
  intros (p1 & g1 & e1 & H1 & -> & -> & He1 & _ & Ht1)
         (p2 & g2 & e2 & H2 & -> & -> & He2 & _ & Ht2).
  rewrite H1 in H2.
  destruct (split_at_underscore _ _ _ _ _ H2 (underscore_not_in_tag _ _ Ht1 He1)
              (underscore_not_in_tag _ _ Ht2 He2)) as [Hb Hw].
  pose proof (tag_end_unique _ _ _ _ Ht1 Ht2 He1 He2 Hw) as Ht.
  now rewrite Hb, Ht.
Qed.

Lemma rep_suffix_match_complete (name b tag : string) :
  rep_suffix_form name b tag -> rep_suffix_match name <> None.
Proof.
  intros (pre & tg & e & Hs & _ & _ & He & Hb & Htg). rewrite rep_suffix_match_unfold. cbv zeta.
  rewrite Hs. apply m_star_complete.
  - apply Forall_forall. intros u Hu. unfold not_newline.
    destruct (char_eqb u [newline]) eqn:E; [|reflexivity].
    apply char_eqb_eq in E. subst u. contradiction.
  - unfold m_one. rewrite char_eqb_refl. apply rep_tag_complete; [exact Htg|].
    unfold rep_cont, m_end.
    destruct He as [-> | ->]; simpl; [discriminate|].
    rewrite ?char_eqb_refl. discriminate.
Qed.

(** C4 (as amended): the resolver returns [(base, tag)] exactly when the
    characters of the identifier are those of [base], then [_], then those
    of [tag], optionally followed by one final line break, with no line
    break in [base] and [tag] one of [R], [Rep], [rep] followed by one or
    more Unicode decimal digits; otherwise [_base_group_name] returns the
    identifier unchanged.  The spec's three examples hold, and a tag may
    end in a non-ASCII digit such as U+0661. *)
Theorem rep_suffix_match_spec :
  (forall name base tag : string,
     rep_suffix_match name = Some (base, tag) <-> rep_suffix_form name base tag) /\
  (forall name : string,
     rep_suffix_match name = None -> _base_group_name name = name) /\
  rep_suffix_match "DrugA_R1" = Some ("DrugA", "R1") /\
  rep_suffix_match "DrugA_Rep12" = Some ("DrugA", "Rep12") /\
  rep_suffix_match "ControlGroup" = None /\
  rep_suffix_match ("A_R" ++ arabic_indic_one)%string
    = Some ("A", "R" ++ arabic_indic_one)%string.
Proof.
  repeat split; try reflexivity.
  - apply rep_suffix_match_sound.
  - intros Hf. destruct (rep_suffix_match name) as [[b' t']|] eqn:E.
    + apply rep_suffix_match_sound in E.
      destruct (rep_suffix_form_unique _ _ _ _ _ E Hf) as [-> ->]. reflexivity.
    + exfalso. exact (rep_suffix_match_complete _ _ _ Hf E).
  - intros name H. unfold _base_group_name. now rewrite H.
Qed.

(** C4: an identifier that ends in [_R1] is not resolved when its base
    holds a line break, and one that ends in a line break is resolved. *)
Lemma rep_suffix_match_newline_cases :
  rep_suffix_match (String "A" (String newline "B_R1")) = None /\
  rep_suffix_match ("A_R1" ++ String newline "") = Some ("A", "R1").
Proof. split; reflexivity. Qed.

(** ** WIDE labelling *)

Lemma in_dropna (r : tidy_rec) (rs : list tidy_rec) :
  In r (dropna rs) <-> In r rs /\ notna (time r) = true /\ notna (value r) = true.
Proof.
  unfold dropna. rewrite filter_In, andb_true_iff. tauto.
Qed.

Lemma in_melt (l : long_rec) (tc : list cell) (vcols : list (string * list cell)) :
  In l (melt tc vcols) -> exists cells, In (l_col l, cells) vcols.
Proof.
  unfold melt. rewrite in_flat_map. intros [[c cells] [Hin Hl]].
  apply in_map_iff in Hl as [[tcell vcell] [<- _]]. simpl. eauto.
Qed.

Lemma in_wide_records (t : raw_table) (r : tidy_rec) :
  In r (wide_records t) ->
  exists c cells, In (c, cells) (value_cols_in_order t) /\ (group r, replicate r) = wide_label c.
Proof.
  unfold wide_records. intros Hin.
  apply in_map_iff in Hin as [[tm l] [<- Hp]].
  apply in_combine_r in Hp. destruct (in_melt _ _ _ Hp) as [cells Hc].
  exists (l_col l), cells. split; [exact Hc|].
  unfold wide_row. destruct (wide_label (l_col l)) as [g rp]. reflexivity.
Qed.

Lemma coerce_time_length (col : list cell) : List.length (_coerce_time col) = List.length col.
Proof.
  unfold _coerce_time. destruct (forallb _ _); apply length_map.
Qed.

Lemma map_flat_map {A B C} (g : B -> C) (f : A -> list B) (l : list A) :
  map g (flat_map f l) = flat_map (fun x => map g (f x)) l.
Proof.
  induction l as [|x l IH]; simpl; [reflexivity|]. rewrite map_app, IH. reflexivity.
Qed.

Lemma map_combine_snd {A B C} (f : B -> C) (l1 : list A) (l2 : list B) :
  map (fun p => f (snd p)) (combine l1 l2) = map f (firstn (List.length l1) l2).
Proof.
  revert l2. induction l1 as [|a l1 IH]; intros [|b l2]; simpl; try reflexivity.
  rewrite IH. reflexivity.
Qed.

Lemma wide_rows_labels (times : list pyfloat) (long : list long_rec) :
  List.length times = List.length long ->
  map (fun r => (group r, replicate r, value r)) (map wide_row (combine times long)) =
  map (fun l => (wide_label (l_col l), to_numeric (l_value l))) long.
Proof.
  revert times. induction long as [|l long IH]; intros [|tm times] H;
    simpl in *; try discriminate; [reflexivity|].
  rewrite IH by lia. unfold wide_row. destruct (wide_label (l_col l)); reflexivity.
Qed.

(** The tables [read_incucyte_csv] returns come from one of the two
    normalizations. *)
Lemma read_ok_inv (t : raw_table) (out : tidy_table) :
  read_incucyte_csv t = ROk out -> out = wide_normalize t \/ out = tidy_normalize t.
Proof.
  unfold read_incucyte_csv, read_wide, read_tidy.
  destruct (_ && _); [|destruct (_ && _ && _)];
  repeat match goal with |- context [if ?b then _ else _] => destruct b end;
  intros H; inversion H; auto.
Qed.

(** C5: in WIDE normalization the records are, in order, those of each
    series column in turn, one per time cell; each carries the value of its
    cell and a [group] and [replicate] from the name of its own column:
    [(base, tag)] when that name carries a replicate suffix, else
    [(name, "R1")].  A table read through the WIDE branch holds these
    records without the NaN ones; columns [A_R1] and [A] both land in group
    [A]. *)
Theorem wide_label_per_column :
  (forall t : raw_table,
     map (fun r => (group r, replicate r, value r)) (wide_records t) =
     flat_map (fun p : string * list cell =>
                 map (fun v => (match rep_suffix_match (fst p) with
                                | Some (base, tag) => (base, tag)
                                | None => (fst p, "R1")
                                end, to_numeric v))
                     (firstn (List.length (column t (wide_time_col t))) (snd p)))
              (value_cols_in_order t)) /\
  (forall (t : raw_table) (out : tidy_table),
     has_column t "time" ->
     ~ (has_column t "group" /\ has_column t "replicate" /\ has_column t "value") ->
     read_incucyte_csv t = ROk out ->
     rows out = filter (fun r => notna (time r) && notna (value r)) (wide_records t)) /\
  map (fun r => (group r, replicate r))
      (rows (wide_normalize
               {| columns := [("Time", [CNum (PFin 0) "0"]);
                              ("A_R1", [CNum (PFin 1) "1"]);
                              ("A", [CNum (PFin 2) "2"])] |}))
  = [("A", "R1"); ("A", "R1")].
Proof.
  split; [|split; [|reflexivity]].
  - intros t. unfold wide_records.
    rewrite wide_rows_labels by (rewrite coerce_time_length, length_map; reflexivity).
    unfold melt. rewrite map_flat_map. apply flat_map_ext. intros [c cells].
    rewrite map_map. simpl.
    rewrite <- (map_combine_snd (fun v => (wide_label c, to_numeric v))).
    apply map_ext. intros [tc vc]. reflexivity.
  - intros t out Ht Hn H.
    rewrite (proj1 (read_branches t)) in H by tauto.
    unfold read_wide in H.
    destruct (existsb _ _); [discriminate|]. destruct (Nat.ltb _ _); [discriminate|].
    injection H as <-. reflexivity.
Qed.

(** ** Group order *)

Lemma first_occ_from_cons (pre : list string) (a : string) (l : list string) (k : nat) :
  first_occ_from pre (a :: l) k =
  (if existsb (String.eqb a) pre then [] else [a]) ++ first_occ_from (pre ++ [a]) l (S k).
Proof.
  unfold first_occ_from. simpl. rewrite Nat.sub_diag. simpl. rewrite app_nil_r.
  assert (Htail :
    filter (fun p => negb (existsb (String.eqb (fst p)) (pre ++ firstn (snd p - k) (a :: l))))
           (combine l (seq (S k) (List.length l))) =
    filter (fun p => negb (existsb (String.eqb (fst p)) ((pre ++ [a]) ++ firstn (snd p - S k) l)))
           (combine l (seq (S k) (List.length l)))).
  { apply filter_ext_in. intros [x j] Hin. simpl.
    apply in_combine_r, in_seq in Hin.
    replace (j - k)%nat with (S (j - S k)) by lia. simpl.
    rewrite <- app_assoc. reflexivity. }
  rewrite Htail. destruct (existsb (String.eqb a) pre); reflexivity.
Qed.

Lemma uniq_first_occ (l : list string) : forall seen pre k,
  (forall x, existsb (String.eqb x) seen = existsb (String.eqb x) pre) ->
  uniq String.eqb seen l = first_occ_from pre l k.
Proof.
  induction l as [|a l IH]; intros seen pre k Hs; [reflexivity|].
  rewrite first_occ_from_cons. simpl. rewrite Hs.
  destruct (existsb (String.eqb a) pre) eqn:Ea; simpl.
  - apply IH. intros x. rewrite Hs, existsb_app. simpl.
    destruct (String.eqb_spec x a) as [->|]; simpl.
    + rewrite Ea. reflexivity.
    + rewrite !orb_false_r. reflexivity.
  - f_equal. apply IH. intros x. simpl. rewrite Hs, existsb_app. simpl.
    rewrite orb_false_r, orb_comm. reflexivity.
Qed.

Lemma uniq_is_first_occurrence_order (l : list string) :
  uniq String.eqb [] l = first_occurrence_order l.
Proof.
  rewrite (uniq_first_occ l [] [] 0) by reflexivity.
  unfold first_occ_from, first_occurrence_order. simpl. f_equal.
  apply filter_ext. intros [x j]. simpl. rewrite Nat.sub_0_r. reflexivity.
Qed.

Lemma group_order_loop_uniq (cols : list string) : forall go seen,
  group_order_loop cols go seen = go ++ uniq String.eqb seen (map _base_group_name cols).
Proof.
  induction cols as [|c cs IH]; intros go seen; simpl.
  - rewrite app_nil_r. reflexivity.
  - destruct (existsb (String.eqb (_base_group_name c)) seen).
    + apply IH.
    + rewrite IH, <- app_assoc. reflexivity.
Qed.

(** C6: a WIDE table's [group] categories are the base names of the
    series columns in header order, first occurrence kept.  A TIDY table's
    [group] is a plain string column without categories; the only order it
    has is that of first appearance among the rows kept after the drop of
    unresolved records.  In [tidy_drop_example] group [B] appears first in
    the source, but its first row has the value [x], and the table lists
    [A] first. *)
Theorem group_order_first_appearance :
  (forall t : raw_table,
     categories (wide_normalize t) =
       Some (first_occurrence_order (map _base_group_name (map fst (value_cols_in_order t))))) /\
  (forall t : raw_table,
     categories (tidy_normalize t) = None /\
     group_order_of (tidy_normalize t) =
       first_occurrence_order (map group (dropna (tidy_records t)))) /\
  read_incucyte_csv tidy_drop_example = ROk (tidy_normalize tidy_drop_example) /\
  group_order_of (tidy_normalize tidy_drop_example) = ["A"; "B"] /\
  first_occurrence_order (map py_str (column tidy_drop_example "group")) = ["B"; "A"].
Proof.
  split; [|split; [|repeat split; reflexivity]]; intros t.
  - simpl. rewrite group_order_loop_uniq, uniq_is_first_occurrence_order. reflexivity.
  - split; [reflexivity|]. unfold group_order_of. simpl.
    apply uniq_is_first_occurrence_order.
Qed.

(** ** Coercion loss *)

(** C7 (as amended): whenever [read_incucyte_csv] succeeds, every record
    has a non-NaN [time] and [value], and the records are exactly the
    coerced source records of the chosen branch whose [time] and [value]
    are not NaN, in source order; no error is raised for the others. *)
Theorem read_drops_exactly_nan_records : forall (t : raw_table) (out : tidy_table),
  read_incucyte_csv t = ROk out ->
  (forall r, In r (rows out) -> notna (time r) = true /\ notna (value r) = true) /\
  (rows out = filter (fun r => notna (time r) && notna (value r)) (wide_records t) \/
   rows out = filter (fun r => notna (time r) && notna (value r)) (tidy_records t)).
Proof.
  intros t out H. apply read_ok_inv in H as [-> | ->].
  - split; [intros r Hr; apply in_dropna in Hr; tauto | left; reflexivity].
  - split; [intros r Hr; apply in_dropna in Hr; tauto | right; reflexivity].
Qed.

(** C7: an infinite value (the text [inf] in the CSV) is not dropped, so
    the tidy table can hold a record whose [value] is not finite. *)
Lemma infinite_value_kept :
  read_incucyte_csv inf_value_example =
    ROk {| categories := Some ["A"];
           rows := [{| time := PFin 0; group := "A"; replicate := "R1";
                       value := PInf |}] |} /\
  exists out r, read_incucyte_csv inf_value_example = ROk out /\
                In r (rows out) /\ pf_finite (value r) = false.
Proof.
  split; [reflexivity|].
  eexists _, _. split; [reflexivity|]. split; [left; reflexivity|reflexivity].
Qed.

(** ** The store and the run of [aggregate_mean_sd] *)

Lemma hget_hset_eq (h : heap) (l : loc) (f : frame) : hget (hset h l f) l = Some f.
Proof. unfold hget, hset. simpl. rewrite Nat.eqb_refl. reflexivity. Qed.

Lemma hget_hset_ne (h : heap) (l l' : loc) (f : frame) :
  l' <> l -> hget (hset h l f) l' = hget h l'.
Proof.
  intros Hne. unfold hget, hset. simpl.
  destruct (Nat.eqb_spec l l'); [congruence|reflexivity].
Qed.

Lemma hget_lt_fresh (h : heap) (l : loc) : hget h l <> None -> (l < fresh h)%nat.
Proof.
  unfold hget, fresh. induction h as [|[l0 f0] h IH]; simpl; [congruence|].
  destruct (Nat.eqb_spec l0 l) as [->|]; intros H; [lia|].
  specialize (IH H). lia.
Qed.

Lemma time_key_pos (q : Q) (tm : pyfloat) :
  negb (Qle_bool q 0) = true -> time_key (Some q) tm = time_bin q tm.
Proof. unfold time_key. intros ->. reflexivity. Qed.

Lemma time_key_nonpos (q : Q) (tm : pyfloat) :
  negb (Qle_bool q 0) = false -> time_key (Some q) tm = tm.
Proof. unfold time_key. intros ->. reflexivity. Qed.

Lemma aggregate_mean_sd_run (h : heap) (df : loc) (f : frame) (ih : option Q) :
  hget h df = Some f ->
  exists h',
    aggregate_mean_sd df ih h =
      Some (group_stats (f_tidy f) (map (fun r => time_key ih (time r)) (rows (f_tidy f))), h') /\
    forall l, l <> fresh h -> hget h' l = hget h l.
Proof.
  intros Hf. unfold aggregate_mean_sd, bind at 1, df_copy. rewrite Hf.
  set (d := fresh h).
  destruct ih as [q|].
  - destruct (negb (Qle_bool q 0)) eqn:Eq.
    + eexists. split.
      * unfold bind, load, set_column. rewrite !hget_hset_eq. simpl.
        unfold bind, load, ret. rewrite hget_hset_eq. simpl.
        rewrite map_ext with (g := fun r => time_key (Some q) (time r))
          by (intros r; symmetry; apply time_key_pos, Eq).
        reflexivity.
      * intros l Hl. rewrite !hget_hset_ne by exact Hl. reflexivity.
    + eexists. split.
      * unfold bind, load, ret. rewrite hget_hset_eq. simpl.
        rewrite map_ext with (g := fun r => time_key (Some q) (time r))
          by (intros r; symmetry; apply time_key_nonpos, Eq).
        reflexivity.
      * intros l Hl. rewrite hget_hset_ne by exact Hl. reflexivity.
  - eexists. split.
    + unfold bind, load, ret. rewrite hget_hset_eq. reflexivity.
    + intros l Hl. rewrite hget_hset_ne by exact Hl. reflexivity.
Qed.

(** C10: [aggregate_mean_sd] leaves its input frame, and every frame that
    existed before the call, as they were: its only write goes to the fresh
    copy made by [df.copy()]. *)
Theorem aggregate_mean_sd_preserves_input :
  forall (h : heap) (df : loc) (f : frame) (ih : option Q),
  hget h df = Some f ->
  exists st h',
    aggregate_mean_sd df ih h = Some (st, h') /\
    hget h' df = Some f /\
    (forall l, hget h l <> None -> hget h' l = hget h l).
Proof.
  intros h df f ih Hf.
  destruct (aggregate_mean_sd_run h df f ih Hf) as (h' & Hrun & Hkeep).
  exists (group_stats (f_tidy f) (map (fun r => time_key ih (time r)) (rows (f_tidy f)))), h'.
  assert (Hold : forall l, hget h l <> None -> hget h' l = hget h l).
  { intros l Hl. apply Hkeep. apply hget_lt_fresh in Hl. lia. }
  repeat split; auto.
  rewrite Hold; [exact Hf | congruence].
Qed.

(** ** [uniq] *)

Section Uniq.
Context {A : Type} (eqb : A -> A -> bool).
Hypothesis eqb_refl : forall a, eqb a a = true.
Hypothesis eqb_sym : forall a b, eqb a b = eqb b a.

Lemma uniq_incl (l : list A) : forall seen x, In x (uniq eqb seen l) -> In x l.
Proof.
  induction l as [|a l IH]; simpl; intros seen x H; [exact H|].
  destruct (existsb (eqb a) seen).
  - right. eapply IH. exact H.
  - destruct H as [<-|H]; [left; reflexivity|right; eapply IH; exact H].
Qed.

Lemma uniq_cover (l : list A) : forall seen x, In x l ->
  (exists y, In y seen /\ eqb x y = true) \/
  (exists y, In y (uniq eqb seen l) /\ eqb x y = true).
Proof.
  induction l as [|a l IH]; simpl; intros seen x Hx; [contradiction|].
  destruct (existsb (eqb a) seen) eqn:Ea.
  - destruct Hx as [<-|Hx].
    + left. apply existsb_exists in Ea. exact Ea.
    + exact (IH seen x Hx).
  - destruct Hx as [<-|Hx].
    + right. exists a. simpl. auto.
    + destruct (IH (a :: seen) x Hx) as [(y & [<-|Hy] & Hxy) | (y & Hy & Hxy)].
      * right. exists a. simpl. auto.
      * left. eauto.
      * right. exists y. simpl. auto.
Qed.

Lemma uniq_not_seen (l : list A) : forall seen x,
  In x (uniq eqb seen l) -> existsb (eqb x) seen = false.
Proof.
  induction l as [|a l IH]; simpl; intros seen x H; [contradiction|].
  destruct (existsb (eqb a) seen) eqn:Ea.
  - exact (IH seen x H).
  - destruct H as [<-|H]; [exact Ea|].
    specialize (IH _ _ H). simpl in IH. apply orb_false_iff in IH. tauto.
Qed.

Lemma uniq_pairwise (l : list A) : forall seen,
  ForallOrdPairs (fun a b => eqb a b = false) (uniq eqb seen l).
Proof.
  induction l as [|a l IH]; simpl; intros seen; [constructor|].
  destruct (existsb (eqb a) seen); [apply IH|].
  constructor; [|apply IH].
  apply Forall_forall. intros b Hb.
  pose proof (uniq_not_seen l (a :: seen) b Hb) as H. simpl in H.
  apply orb_false_iff in H as [H _]. rewrite eqb_sym. exact H.
Qed.
End Uniq.

Lemma ForallOrdPairs_app {A} (R : A -> A -> Prop) (l1 l2 : list A) :
  ForallOrdPairs R l1 -> ForallOrdPairs R l2 ->
  (forall a b, In a l1 -> In b l2 -> R a b) -> ForallOrdPairs R (l1 ++ l2).
Proof.
  induction l1 as [|a l1 IH]; simpl; intros H1 H2 Hx; [exact H2|].
  inversion H1; subst. constructor.
  - apply Forall_app. split; [assumption|].
    apply Forall_forall. intros b Hb. apply Hx; auto.
  - apply IH; auto.
Qed.

Lemma ForallOrdPairs_map {A B} (R : B -> B -> Prop) (f : A -> B) (l : list A) :
  ForallOrdPairs (fun a b => R (f a) (f b)) l -> ForallOrdPairs R (map f l).
Proof.
  induction 1; simpl; constructor; auto.
  apply Forall_map. exact H.
Qed.

(** ** Keys and values *)

Lemma Qeq_bool_sym (a b : Q) : Qeq_bool a b = Qeq_bool b a.
Proof.
  destruct (Qeq_bool a b) eqn:E1, (Qeq_bool b a) eqn:E2; auto.
  - apply Qeq_bool_iff in E1. apply Qeq_sym, Qeq_bool_iff in E1. congruence.
  - apply Qeq_bool_iff in E2. apply Qeq_sym, Qeq_bool_iff in E2. congruence.
Qed.

Lemma pf_eqb_refl (x : pyfloat) : pf_eqb x x = true.
Proof. destruct x; simpl; auto. apply Qeq_bool_iff, Qeq_refl. Qed.

Lemma pf_eqb_sym (x y : pyfloat) : pf_eqb x y = pf_eqb y x.
Proof. destruct x, y; simpl; auto. apply Qeq_bool_sym. Qed.

Lemma key_eqb_refl (k : string * pyfloat) : key_eqb k k = true.
Proof. unfold key_eqb. rewrite String.eqb_refl, pf_eqb_refl. reflexivity. Qed.

Lemma key_eqb_sym (k1 k2 : string * pyfloat) : key_eqb k1 k2 = key_eqb k2 k1.
Proof. unfold key_eqb. rewrite String.eqb_sym, pf_eqb_sym. reflexivity. Qed.

Lemma pf_eqb_notna (x y : pyfloat) : pf_eqb x y = true -> notna y = true -> notna x = true.
Proof. destruct x, y; cbn; intros; congruence. Qed.

Lemma combine_map_self {A B} (f : A -> B) (l : list A) :
  combine l (map f l) = map (fun x => (x, f x)) l.
Proof. induction l; simpl; congruence. Qed.

Lemma group_stats_obs (t : tidy_table) (kf : pyfloat -> pyfloat) :
  group_stats t (map (fun r => kf (time r)) (rows t)) =
  map (fun k => let vs := key_values (obs_of t kf) k in
                {| g_group := fst k; g_time := snd k; g_mean := pf_mean vs;
                   g_var := pf_var vs; g_n := List.length vs |})
      (group_keys t (obs_of t kf)).
Proof. unfold group_stats, obs_of. rewrite combine_map_self. reflexivity. Qed.

Lemma key_values_values_at (t : tidy_table) (kf : pyfloat -> pyfloat) (g : string) (tm : pyfloat) :
  notna tm = true -> key_values (obs_of t kf) (g, tm) = values_at t kf g tm.
Proof.
  intros Htm. unfold key_values, obs_of, values_at. f_equal.
  induction (rows t) as [|r rs IH]; simpl; [reflexivity|].
  unfold key_eqb in *. simpl in *.
  destruct (notna (kf (time r))) eqn:En; simpl.
  - destruct (String.eqb (group r) g && pf_eqb (kf (time r)) tm); simpl; congruence.
  - destruct (pf_eqb (kf (time r)) tm) eqn:Ee.
    + rewrite (pf_eqb_notna _ _ Ee Htm) in En. discriminate.
    + rewrite andb_false_r. exact IH.
Qed.

Lemma group_keys_notna (t : tidy_table) (kf : pyfloat -> pyfloat) (k : string * pyfloat) :
  In k (group_keys t (obs_of t kf)) -> notna (snd k) = true.
Proof.
  unfold group_keys. destruct (categories t) as [cs|].
  - intros Hk. apply in_flat_map in Hk as (g & _ & Hk).
    apply in_map_iff in Hk as (tm & <- & Htm). simpl.
    apply uniq_incl in Htm. apply in_map_iff in Htm as (p & <- & Hp).
    unfold obs_of in Hp. apply filter_In in Hp. tauto.
  - intros Hk. apply uniq_incl in Hk. apply in_map_iff in Hk as (p & <- & Hp).
    unfold obs_of in Hp. apply filter_In in Hp. tauto.
Qed.

Lemma group_keys_cover (t : tidy_table) (kf : pyfloat -> pyfloat) (r : tidy_rec) (g : string) :
  In r (rows t) -> notna (kf (time r)) = true ->
  match categories t with Some cs => In g cs | None => g = group r end ->
  exists k, In k (group_keys t (obs_of t kf)) /\ fst k = g /\
            pf_eqb (snd k) (kf (time r)) = true.
Proof.
  intros Hr Hn Hg.
  assert (Hobs : In (r, kf (time r)) (obs_of t kf)).
  { unfold obs_of. apply filter_In. split; [|exact Hn].
    apply in_map_iff. eauto. }
  unfold group_keys. destruct (categories t) as [cs|].
  - assert (Hin : In (kf (time r)) (map snd (obs_of t kf)))
      by (apply in_map_iff; eexists; split; [|exact Hobs]; reflexivity).
    destruct (uniq_cover pf_eqb pf_eqb_refl _ [] _ Hin) as [(y & [] & _) | (y & Hy & Hxy)].
    exists (g, y). split; [|split; [reflexivity|]].
    + apply in_flat_map. exists g. split; [exact Hg|]. apply in_map_iff. eauto.
    + simpl. rewrite pf_eqb_sym. exact Hxy.
  - subst g.
    assert (Hin : In (group r, kf (time r)) (map (fun p => (group (fst p), snd p)) (obs_of t kf)))
      by (apply in_map_iff; eexists; split; [|exact Hobs]; reflexivity).
    destruct (uniq_cover key_eqb key_eqb_refl _ [] _ Hin) as [(y & [] & _) | (y & Hy & Hxy)].
    exists y. split; [exact Hy|].
    unfold key_eqb in Hxy. apply andb_true_iff in Hxy as [H1 H2].
    apply String.eqb_eq in H1. simpl in H1, H2. split; [symmetry; exact H1|]. rewrite pf_eqb_sym. exact H2.
Qed.

Lemma group_keys_sound (t : tidy_table) (kf : pyfloat -> pyfloat) (k : string * pyfloat) :
  In k (group_keys t (obs_of t kf)) ->
  exists r, In r (rows t) /\ notna (kf (time r)) = true /\ snd k = kf (time r) /\
    match categories t with Some cs => In (fst k) cs | None => fst k = group r end.
Proof.
  unfold group_keys. destruct (categories t) as [cs|].
  - intros Hk. apply in_flat_map in Hk as (g & Hg & Hk).
    apply in_map_iff in Hk as (tm & <- & Htm). simpl.
    apply uniq_incl in Htm. apply in_map_iff in Htm as (p & <- & Hp).
    unfold obs_of in Hp. apply filter_In in Hp as (Hp & Hn).
    apply in_map_iff in Hp as (r & <- & Hr). simpl in Hn |- *. eauto.
  - intros Hk. apply uniq_incl in Hk. apply in_map_iff in Hk as (p & <- & Hp).
    unfold obs_of in Hp. apply filter_In in Hp as (Hp & Hn).
    apply in_map_iff in Hp as (r & <- & Hr). simpl in Hn |- *. eauto.
Qed.

Lemma in_group_stats (t : tidy_table) (kf : pyfloat -> pyfloat) (s : stats_rec) :
  In s (group_stats t (map (fun r => kf (time r)) (rows t))) ->
  exists k, In k (group_keys t (obs_of t kf)) /\
    g_group s = fst k /\ g_time s = snd k /\ notna (snd k) = true /\
    g_n s = List.length (values_at t kf (fst k) (snd k)) /\
    g_mean s = pf_mean (values_at t kf (fst k) (snd k)) /\
    g_var s = pf_var (values_at t kf (fst k) (snd k)).
Proof.
  rewrite group_stats_obs. intros Hs. apply in_map_iff in Hs as ([g tm] & <- & Hk).
  pose proof (group_keys_notna _ _ _ Hk) as Hn. simpl in Hn.
  exists (g, tm). simpl. rewrite key_values_values_at by exact Hn. auto 8.
Qed.

Lemma time_key_positive (q : Q) (tm : pyfloat) :
  0 < q -> time_key (Some q) tm = pf_mulQ (pf_floor (pf_divQ tm q)) q.
Proof.
  intros Hq. unfold time_key.
  destruct (Qle_bool q 0) eqn:E; [|reflexivity].
  apply Qle_bool_iff in E. exfalso. apply (Qlt_not_le _ _ Hq E).
Qed.

(** C9: the aggregator groups by [(group, time_key)], where the time key is
    [floor(time / interval_hours) * interval_hours] for a positive interval
    and the raw time when the interval is absent or 0: every stats record
    counts exactly the records with its group and time key, and every
    record with a non-NaN key has a stats record (for a categorical
    [group], records whose group is a category).  Times 5.9 and 7.99 fall in
    bin 4 and time 8 in bin 8 for an interval of 4. *)
Theorem aggregate_grouping_key :
  (forall (h : heap) (df : loc) (f : frame) (ih : option Q),
     hget h df = Some f ->
     exists st h',
       aggregate_mean_sd df ih h = Some (st, h') /\
       (forall s, In s st ->
          g_n s = List.length (values_at (f_tidy f) (time_key ih) (g_group s) (g_time s)) /\
          g_mean s = pf_mean (values_at (f_tidy f) (time_key ih) (g_group s) (g_time s))) /\
       (forall r, In r (rows (f_tidy f)) -> notna (time_key ih (time r)) = true ->
          match categories (f_tidy f) with Some cs => In (group r) cs | None => True end ->
          exists s, In s st /\ g_group s = group r /\
                    pf_eqb (g_time s) (time_key ih (time r)) = true)) /\
  (forall (q : Q) (tm : pyfloat),
     0 < q -> time_key (Some q) tm = pf_mulQ (pf_floor (pf_divQ tm q)) q) /\
  (forall tm : pyfloat, time_key None tm = tm /\ time_key (Some 0) tm = tm) /\
  pf_eqb (time_key (Some 4) (PFin (59 # 10))) (PFin 4) = true /\
  pf_eqb (time_key (Some 4) (PFin (799 # 100))) (PFin 4) = true /\
  pf_eqb (time_key (Some 4) (PFin 8)) (PFin 8) = true.
Proof.
  split; [|split; [exact time_key_positive|repeat split; reflexivity]].
  intros h df f ih Hf.
  destruct (aggregate_mean_sd_run h df f ih Hf) as (h' & Hrun & _).
  eexists _, h'. split; [exact Hrun|]. split.
  - intros s Hs. destruct (in_group_stats _ _ _ Hs) as (k & _ & -> & -> & _ & Hn & Hm & _).
    auto.
  - intros r Hr Hn Hc.
    destruct (group_keys_cover (f_tidy f) (time_key ih) r (group r) Hr Hn)
      as (k & Hk & Hg & Ht).
    { destruct (categories (f_tidy f)); auto. }
    exists {| g_group := fst k; g_time := snd k;
              g_mean := pf_mean (key_values (obs_of (f_tidy f) (time_key ih)) k);
              g_var := pf_var (key_values (obs_of (f_tidy f) (time_key ih)) k);
              g_n := List.length (key_values (obs_of (f_tidy f) (time_key ih)) k) |}.
    split; [|simpl; auto].
    rewrite group_stats_obs. apply in_map_iff. eauto.
Qed.

Lemma ForallOrdPairs_impl {A} (P Q0 : A -> A -> Prop) (l : list A) :
  (forall a b, P a b -> Q0 a b) -> ForallOrdPairs P l -> ForallOrdPairs Q0 l.
Proof.
  intros HPQ. induction 1; constructor; auto.
  eapply Forall_impl; [|eassumption]. auto.
Qed.

Lemma product_keys_pairwise (cs : list string) (times : list pyfloat) :
  NoDup cs -> ForallOrdPairs (fun a b => pf_eqb a b = false) times ->
  ForallOrdPairs (fun k1 k2 => key_eqb k1 k2 = false)
                 (flat_map (fun g => map (fun tm => (g, tm)) times) cs).
Proof.
  intros Hnd Ht. induction Hnd as [|g cs Hg Hnd IH]; simpl; [constructor|].
  apply ForallOrdPairs_app; [| exact IH |].
  - apply ForallOrdPairs_map. eapply ForallOrdPairs_impl; [|exact Ht].
    intros a b Hab. unfold key_eqb. simpl. rewrite String.eqb_refl. exact Hab.
  - intros a b Ha Hb. apply in_map_iff in Ha as (tm & <- & _).
    apply in_flat_map in Hb as (g' & Hg' & Hb). apply in_map_iff in Hb as (tm' & <- & _).
    unfold key_eqb. simpl.
    destruct (String.eqb g g') eqn:E; [|reflexivity].
    apply String.eqb_eq in E. subst. contradiction.
Qed.

Lemma group_keys_pairwise (t : tidy_table) (obs : list (tidy_rec * pyfloat)) :
  categories_ok t -> ForallOrdPairs (fun k1 k2 => key_eqb k1 k2 = false) (group_keys t obs).
Proof.
  unfold categories_ok, group_keys. destruct (categories t) as [cs|]; intros Hok.
  - apply product_keys_pairwise; [exact Hok|]. apply uniq_pairwise. exact pf_eqb_sym.
  - apply uniq_pairwise. exact key_eqb_sym.
Qed.

Lemma values_at_self (t : tidy_table) (kf : pyfloat -> pyfloat) (r : tidy_rec) :
  In r (rows t) -> notna (value r) = true ->
  In (value r) (values_at t kf (group r) (kf (time r))).
Proof.
  intros Hr Hv. unfold values_at. apply filter_In. split; [|exact Hv].
  apply in_map. apply filter_In. split; [exact Hr|].
  rewrite String.eqb_refl, pf_eqb_refl. reflexivity.
Qed.

Lemma fold_pf_add_fin (qs : list Q) : forall a,
  fold_left pf_add (map PFin qs) (PFin a) = PFin (fold_left Qplus qs a).
Proof. induction qs as [|q qs IH]; simpl; intros a; [reflexivity|]. apply IH. Qed.

Lemma pf_sum_fin (qs : list Q) : pf_sum (map PFin qs) = PFin (q_sum qs).
Proof. apply fold_pf_add_fin. Qed.

Lemma pf_mean_unfold (l : list pyfloat) : l <> [] ->
  pf_mean l = pf_divQ (pf_sum l) (inject_Z (Z.of_nat (List.length l))).
Proof. intros H. destruct l; [contradiction|reflexivity]. Qed.

Lemma pf_mean_fin (qs : list Q) : qs <> [] -> pf_mean (map PFin qs) = PFin (spec_mean qs).
Proof.
  intros Hne. rewrite pf_mean_unfold by (destruct qs; [contradiction|discriminate]).
  rewrite pf_sum_fin, length_map. reflexivity.
Qed.

Lemma pf_var_unfold (l : list pyfloat) : (2 <= List.length l)%nat ->
  pf_var l = pf_divQ (pf_sum (map (fun v => pf_sq (pf_sub v (pf_mean l))) l))
                     (inject_Z (Z.of_nat (List.length l - 1))).
Proof. intros H. destruct l as [|a [|b l]]; simpl in H; try lia; reflexivity. Qed.

Lemma pf_var_fin (qs : list Q) : (2 <= List.length qs)%nat ->
  pf_var (map PFin qs) = PFin (spec_sample_var qs).
Proof.
  intros H. rewrite pf_var_unfold by (rewrite length_map; exact H).
  rewrite pf_mean_fin by (destruct qs; simpl in H; [lia|discriminate]).
  rewrite map_map.
  rewrite (map_ext (fun x => pf_sq (pf_sub (PFin x) (PFin (spec_mean qs))))
                   (fun x => PFin ((x - spec_mean qs) * (x - spec_mean qs))))
    by reflexivity.
  rewrite <- (map_map (fun x => (x - spec_mean qs) * (x - spec_mean qs)) PFin).
  rewrite pf_sum_fin, length_map. reflexivity.
Qed.

Lemma pf_var_short (l : list pyfloat) : (List.length l <= 1)%nat -> pf_var l = PNaN.
Proof. intros H. destruct l as [|a [|b l]]; simpl in H; try lia; reflexivity. Qed.

Lemma group_keys_observed (t : tidy_table) (kf : pyfloat -> pyfloat) (k : string * pyfloat) :
  categories t = None -> In k (group_keys t (obs_of t kf)) ->
  exists r, In r (rows t) /\ k = (group r, kf (time r)).
Proof.
  unfold group_keys. intros -> Hk. apply uniq_incl in Hk.
  apply in_map_iff in Hk as (p & <- & Hp). unfold obs_of in Hp.
  apply filter_In in Hp as (Hp & _). apply in_map_iff in Hp as (r & <- & Hr).
  exists r. auto.
Qed.

(** C8 (as amended): [aggregate_mean_sd] returns one stats record per
    grouping key, no two with the same key, a record for every key of a
    record with a non-NaN time key, and no other records: each record's
    time is the non-NaN key of some input record and its group that
    record's group (a plain column) or a category (a categorical one).  A record's [n] is the number of non-NaN
    values with its key, [mean] their mean and [sd] the square root of their
    sample variance; [sd] is NaN when [n <= 1]; for finite values and
    [n >= 2] they are the arithmetic mean and the sample standard deviation.
    When [group] is a plain column ([categories = None], the TIDY branch)
    every record has [n >= 1]; when it is categorical (the WIDE branch) the
    keys are every category with every observed time, following pandas'
    default [observed=False] before pandas 3.0.  Records [(0, 1)] and
    [(0, 3)] of group [A] give mean 2, sd [sqrt 2], n 2; a single record
    gives n 1 and a NaN sd. *)
Theorem aggregate_stats_per_key :
  (forall (h : heap) (df : loc) (f : frame) (ih : option Q),
     hget h df = Some f -> categories_ok (f_tidy f) ->
     exists st h',
       aggregate_mean_sd df ih h = Some (st, h') /\
       ForallOrdPairs (fun s1 s2 => key_eqb (g_group s1, g_time s1) (g_group s2, g_time s2) = false) st /\
       (forall r g, In r (rows (f_tidy f)) -> notna (time_key ih (time r)) = true ->
          match categories (f_tidy f) with Some cs => In g cs | None => g = group r end ->
          exists s, In s st /\ g_group s = g /\ pf_eqb (g_time s) (time_key ih (time r)) = true) /\
       (forall s, In s st ->
          exists r, In r (rows (f_tidy f)) /\ notna (time_key ih (time r)) = true /\
            g_time s = time_key ih (time r) /\
            match categories (f_tidy f) with Some cs => In (g_group s) cs | None => g_group s = group r end) /\
       (forall s, In s st ->
          let vs := values_at (f_tidy f) (time_key ih) (g_group s) (g_time s) in
          g_n s = List.length vs /\ g_mean s = pf_mean vs /\ g_var s = pf_var vs /\
          ((g_n s <= 1)%nat -> g_sd s = None) /\
          (forall qs, vs = map PFin qs ->
             (qs <> [] -> g_mean s = PFin (spec_mean qs)) /\
             ((2 <= List.length qs)%nat -> g_sd s = Some (sqrt (Q2R (spec_sample_var qs))))) /\
          (categories (f_tidy f) = None ->
             (forall r, In r (rows (f_tidy f)) -> notna (value r) = true) -> (1 <= g_n s)%nat))) /\
  (exists s h', aggregate_mean_sd 0%nat None [(0%nat, two_obs_frame)] = Some ([s], h') /\
     g_group s = "A" /\ pf_eqb (g_mean s) (PFin 2) = true /\ g_sd s = Some (sqrt 2) /\ g_n s = 2%nat) /\
  (exists s h', aggregate_mean_sd 0%nat None [(0%nat, one_obs_frame)] = Some ([s], h') /\
     g_n s = 1%nat /\ g_sd s = None).
Proof.
  split; [|split].
  - intros h df f ih Hf Hok.
    destruct (aggregate_mean_sd_run h df f ih Hf) as (h' & Hrun & _).
    eexists _, h'. split; [exact Hrun|]. split; [|split; [|split]].
    + rewrite group_stats_obs. apply ForallOrdPairs_map.
      eapply ForallOrdPairs_impl; [|apply (group_keys_pairwise (f_tidy f) _ Hok)].
      intros [g1 t1] [g2 t2]. simpl. auto.
    + intros r g Hr Hn Hg.
      destruct (group_keys_cover (f_tidy f) (time_key ih) r g Hr Hn Hg) as (k & Hk & Hkg & Ht).
      exists {| g_group := fst k; g_time := snd k;
                g_mean := pf_mean (key_values (obs_of (f_tidy f) (time_key ih)) k);
                g_var := pf_var (key_values (obs_of (f_tidy f) (time_key ih)) k);
                g_n := List.length (key_values (obs_of (f_tidy f) (time_key ih)) k) |}.
      split; [|simpl; auto].
      rewrite group_stats_obs. apply in_map_iff. eauto.
    + intros s Hs.
      destruct (in_group_stats _ _ _ Hs) as (k & Hk & Hg & Ht & _).
      destruct (group_keys_sound _ _ _ Hk) as (r & Hr & Hn & Hkt & Hkg).
      exists r. rewrite Hg, Ht. auto.
    + intros s Hs. cbv zeta.
      destruct (in_group_stats _ _ _ Hs) as (k & Hk & Hg & Ht & _ & Hn & Hm & Hv).
      rewrite Hg, Ht. repeat split; auto.
      * intros Hle. unfold g_sd. rewrite Hv, pf_var_short by lia. reflexivity.
      * intros Hne. rewrite Hm, H. apply pf_mean_fin. exact Hne.
      * intros H2. unfold g_sd. rewrite Hv, H, pf_var_fin by exact H2. reflexivity.
      * intros Hc Hval. rewrite Hn.
        destruct (group_keys_observed _ _ _ Hc Hk) as (r & Hr & ->). simpl.
        pose proof (values_at_self (f_tidy f) (time_key ih) r Hr (Hval r Hr)) as Hin.
        destruct (values_at (f_tidy f) (time_key ih) (group r) (time_key ih (time r)));
          [contradiction|simpl; lia].
  - eexists _, _. split; [reflexivity|].
    split; [reflexivity|]. split; [vm_compute; reflexivity|]. split; [|reflexivity].
    unfold g_sd. simpl. f_equal. f_equal. unfold Q2R. simpl. lra.
  - eexists _, _. split; [reflexivity|]. split; reflexivity.
Qed.

(** C8: with a categorical [group] (the WIDE branch), a category without
    any record at a time that other groups have still gets a stats record,
    with [n = 0] and NaN [mean] and [sd].  Here series [B] of
    [Time,A,B / 0,1,<blank>] has no record. *)
Lemma unobserved_category_zero_count :
  read_incucyte_csv unobserved_category_raw = ROk (f_tidy unobserved_category_frame) /\
  exists st h' s,
    aggregate_mean_sd 0%nat None [(0%nat, unobserved_category_frame)] = Some (st, h') /\
    In s st /\ g_group s = "B" /\ g_n s = 0%nat /\ g_mean s = PNaN /\ g_sd s = None.
Proof.
  split; [reflexivity|].
  eexists _, _, _. split; [reflexivity|]. split; [right; left; reflexivity|].
  repeat split; reflexivity.
Qed.

(** ** Instances of the theorems with hypotheses *)

Lemma read_drops_exactly_nan_records_witness :
  exists out, read_incucyte_csv tidy_drop_example = ROk out /\
    (forall r, In r (rows out) -> notna (time r) = true /\ notna (value r) = true).
Proof.
  exists (tidy_normalize tidy_drop_example). split; [reflexivity|].
  destruct (read_drops_exactly_nan_records tidy_drop_example (tidy_normalize tidy_drop_example))
    as [H _]; [reflexivity|exact H].
Defined.

Lemma aggregate_mean_sd_preserves_input_witness :
  hget [(0%nat, two_obs_frame)] 0%nat = Some two_obs_frame /\
  exists st h',
    aggregate_mean_sd 0%nat (Some 4) [(0%nat, two_obs_frame)] = Some (st, h') /\
    hget h' 0%nat = Some two_obs_frame /\
    (forall l, hget [(0%nat, two_obs_frame)] l <> None ->
               hget h' l = hget [(0%nat, two_obs_frame)] l).
Proof.
  split; [reflexivity|].
  apply (aggregate_mean_sd_preserves_input [(0%nat, two_obs_frame)] 0%nat two_obs_frame (Some 4)).
  reflexivity.
Defined.

Lemma aggregate_stats_per_key_witness :
  hget [(0%nat, unobserved_category_frame)] 0%nat = Some unobserved_category_frame /\
  categories_ok (f_tidy unobserved_category_frame) /\
  exists st h',
    aggregate_mean_sd 0%nat None [(0%nat, unobserved_category_frame)] = Some (st, h') /\
    ForallOrdPairs (fun s1 s2 => key_eqb (g_group s1, g_time s1) (g_group s2, g_time s2) = false) st.
Proof.
  assert (Hh : hget [(0%nat, unobserved_category_frame)] 0%nat = Some unobserved_category_frame)
    by reflexivity.
  assert (Hc : categories_ok (f_tidy unobserved_category_frame)).
  { simpl. repeat constructor; simpl; intros Hin; repeat destruct Hin as [Hin|Hin];
      try discriminate; contradiction. }
  split; [exact Hh|]. split; [exact Hc|].
  destruct (proj1 aggregate_stats_per_key _ _ _ None Hh Hc) as (st & h' & Hrun & Hp & _).
  exists st, h'. split; [exact Hrun|exact Hp].
Defined.

Lemma aggregate_grouping_key_witness :
  hget [(0%nat, two_obs_frame)] 0%nat = Some two_obs_frame /\
  exists st h',
    aggregate_mean_sd 0%nat (Some 4) [(0%nat, two_obs_frame)] = Some (st, h') /\
    (forall s, In s st ->
       g_n s = List.length (values_at (f_tidy two_obs_frame) (time_key (Some 4)) (g_group s) (g_time s))).
Proof.
  assert (Hh : hget [(0%nat, two_obs_frame)] 0%nat = Some two_obs_frame) by reflexivity.
  split; [exact Hh|].
  destruct (proj1 aggregate_grouping_key _ _ _ (Some 4) Hh) as (st & h' & Hrun & Hs & _).
  exists st, h'. split; [exact Hrun|]. intros s Hin. apply (Hs s Hin).
Defined.

(* ================================================================== *)
(** * Further properties of the code *)

(** ** Format detection and the tidy table *)

Lemma nodup_map_inj {A B} (f : A -> B) (l : list A) (x y : A) :
  NoDup (map f l) -> In x l -> In y l -> f x = f y -> x = y.
Proof.
  induction l as [|a l IH]; simpl; [contradiction|].
  intros Hnd Hx Hy Hf. inversion Hnd as [|b m Hnin Hnd']; subst.
  destruct Hx as [<-|Hx], Hy as [<-|Hy]; auto.
  - exfalso. apply Hnin. rewrite Hf. apply in_map. exact Hy.
  - exfalso. apply Hnin. rewrite <- Hf. apply in_map. exact Hx.
Qed.

(** Column names distinct up to case leave no clash. *)
Lemma clash_nodup_lower (t : raw_table) (k : string) :
  NoDup (map lower (col_names t)) -> lower k = k -> clash t k = false.
Proof.
  intros Hnd Hk. unfold clash.
  destruct (existsb _ _) eqn:E; [|reflexivity].
  apply existsb_exists in E as (c & Hc & Hb).
  apply andb_true_iff in Hb as [Hck Hno]. apply String.eqb_eq in Hck. subst c.
  destruct (lower_map_get_has t k) as [c' Ec']; [exists k; auto|].
  destruct (lower_map_get_in _ _ _ Ec') as [Hin' Hl'].
  assert (Heq : k = c') by (apply (nodup_map_inj lower (col_names t)); auto; congruence).
  subst c'. rewrite Ec' in Hno. simpl in Hno. rewrite String.eqb_refl in Hno. discriminate.
Qed.

Lemma read_format_error_no_time (t : raw_table) (m : string) :
  read_incucyte_csv t = RErr (FormatError m) -> ~ has_column t "time".
Proof.
  unfold read_incucyte_csv, read_wide, read_tidy.
  col_cases t; simpl;
    repeat match goal with |- context [if ?b then _ else _] => destruct b end;
    intros H; try discriminate; tauto.
Qed.

(** [read_incucyte_csv] raises its format-detection message exactly when
    no column is named [time] up to case.  With a [time] column and column
    names distinct up to case, it returns a table, except that the WIDE
    branch raises in [melt] when a column is named [value] exactly. *)
Theorem read_fails_iff_no_time_column (t : raw_table) :
  (read_incucyte_csv t = RErr (FormatError format_error) <-> ~ has_column t "time") /\
  (has_column t "time" -> NoDup (map lower (col_names t)) ->
     (exists out, read_incucyte_csv t = ROk out) \/
     (read_incucyte_csv t = RErr MeltValueName /\ In "value" (col_names t))).
Proof.
  destruct (read_branches t) as (Bw & Bt & Bf).
  split; [split|].
  - apply read_format_error_no_time.
  - intros Hn. apply Bf. split; tauto.
  - intros Ht Hnd.
    assert (Hnd' : NoDup (col_names t)) by (eapply NoDup_map_inv; exact Hnd).
    destruct (in_cols_lower (col_names t) "group" && in_cols_lower (col_names t) "replicate"
              && in_cols_lower (col_names t) "value") eqn:E.
    + apply andb_true_iff in E as [E Hv]. apply andb_true_iff in E as [Hg Hr].
      apply in_cols_lower_spec in Hg, Hr, Hv.
      rewrite (Bt ltac:(tauto)), read_tidy_spec by auto.
      rewrite !(clash_nodup_lower t) by (auto; reflexivity).
      left. eexists. reflexivity.
    + assert (Hw : ~ (has_column t "group" /\ has_column t "replicate" /\ has_column t "value")).
      { intros (Hg & Hr & Hv). apply in_cols_lower_spec in Hg, Hr, Hv.
        rewrite Hg, Hr, Hv in E. discriminate. }
      rewrite (Bw (conj Ht Hw)), read_wide_spec by auto.
      rewrite (clash_nodup_lower t) by (auto; reflexivity).
      destruct (existsb (String.eqb "value") (col_names t)) eqn:Ev.
      * right. split; [reflexivity|].
        apply existsb_exists in Ev as (c & Hc & Hcv). apply String.eqb_eq in Hcv. subst c. exact Hc.
      * left. eexists. reflexivity.
Qed.

Lemma ordpairs_string_nodup (l : list string) :
  ForallOrdPairs (fun a b => String.eqb a b = false) l -> NoDup l.
Proof.
  induction 1 as [|a l Ha _ IH]; constructor; [|exact IH].
  intros Hin. rewrite Forall_forall in Ha. specialize (Ha a Hin).
  rewrite String.eqb_refl in Ha. discriminate.
Qed.

Lemma uniq_string_nodup (l : list string) : NoDup (uniq String.eqb [] l).
Proof.
  apply ordpairs_string_nodup, uniq_pairwise.
  intros a b. apply String.eqb_sym.
Qed.

Lemma wide_categories (t : raw_table) :
  categories (wide_normalize t) =
    Some (uniq String.eqb [] (map _base_group_name (map fst (value_cols_in_order t)))).
Proof. simpl. rewrite group_order_loop_uniq. reflexivity. Qed.


(** In a WIDE read every record's group is one of the categories: the
    labels given by the regex and by [_base_group_name] agree, so the
    conversion to [pd.Categorical] never turns a group into NaN. *)
Theorem read_groups_in_categories (t : raw_table) (out : tidy_table) (r : tidy_rec) :
  read_incucyte_csv t = ROk out -> In r (rows out) -> in_cats out r = true.
Proof.
  intros H Hr. destruct (read_ok_inv _ _ H) as [->| ->]; [|reflexivity].
  unfold in_cats. rewrite wide_categories.
  simpl in Hr. apply in_dropna in Hr as [Hr _].
  destruct (in_wide_records _ _ Hr) as (c & cells & Hc & Hl).
  assert (Hg : group r = _base_group_name c).
  { unfold wide_label in Hl. unfold _base_group_name.
    destruct (rep_suffix_match c) as [[b tg]|]; congruence. }
  assert (Hin : In (group r) (map _base_group_name (map fst (value_cols_in_order t)))).
  { rewrite Hg. apply in_map. apply in_map_iff. exists (c, cells). auto. }
  destruct (uniq_cover String.eqb String.eqb_refl _ [] _ Hin)
    as [(y & [] & _) | (y & Hy & Hxy)].
  apply existsb_exists. eauto.
Qed.

(** With several columns named [time] up to case, the WIDE branch takes the
    last one as the time column ([lower_map] keeps the last); every other
    column, an earlier [Time] included, is read as a series. *)
Theorem wide_time_column_is_last (t : raw_table) :
  has_column t "time" ->
  exists pre cells post,
    columns t = pre ++ (wide_time_col t, cells) :: post /\
    lower (wide_time_col t) = "time" /\
    Forall (fun p => lower (fst p) <> "time") post /\
    (forall c cs, In (c, cs) (columns t) -> c <> wide_time_col t ->
                  In (c, cs) (value_cols_in_order t)).
Proof.
  intros (c0 & Hc0 & Hl0).
  unfold wide_time_col. destruct (lower_map_get (col_names t) "time") as [c|] eqn:E.
  - destruct (lower_map_get_some _ _ _ E) as (pre & post & Hcols & Hl & Hf).
    unfold col_names in Hcols. apply map_eq_app in Hcols as (pre' & rest & Heq & _ & Hrest).
    apply map_eq_cons in Hrest as ([c' cells] & post' & Hr & Hc & Hpost). simpl in Hc. subst c' rest.
    exists pre', cells, post'. split; [exact Heq|]. split; [exact Hl|]. split.
    + subst post. rewrite Forall_map in Hf. exact Hf.
    + intros c2 cs2 Hin Hne. unfold value_cols_in_order, wide_time_col. rewrite E.
      apply filter_In. split; [exact Hin|]. apply negb_true_iff, String.eqb_neq. exact Hne.
  - apply lower_map_get_none in E. rewrite Forall_forall in E.
    exfalso. exact (E c0 Hc0 Hl0).
Qed.

(** ** Time extraction *)

Lemma num_pat_sound {R} (s : list ascii) (k : list ascii -> option R) (r : R) :
  num_pat s k = Some r ->
  exists pre suf, s = pre ++ suf /\ pre <> [] /\
                  Forall (fun c => num_char c = true) pre /\ k suf = Some r.
Proof.
  unfold num_pat. intros H.
  destruct (m_star_sound _ _ _ _ H) as (p1 & s1 & -> & Hp1 & Hk1).
  assert (Hd : forall c, is_digit c = true -> num_char c = true)
    by (intros c Hc; unfold num_char; rewrite Hc; reflexivity).
  unfold m_opt in Hk1.
  destruct (m_one (Ascii.eqb dot) s1 (fun s2 => m_plus is_digit s2 k)) as [r'|] eqn:E1.
  - injection Hk1 as <-. unfold m_one in E1.
    destruct s1 as [|c s2]; [discriminate|].
    destruct (Ascii.eqb dot c) eqn:Ec; [|discriminate].
    destruct (m_plus_sound _ _ _ _ E1) as (d & suf & -> & Hne & Hdig & Hk).
    exists (p1 ++ c :: d), suf. split; [rewrite <- app_assoc; reflexivity|].
    split; [destruct p1; discriminate|]. split; [|exact Hk].
    apply Forall_app. split; [eapply Forall_impl; [|exact Hp1]; auto|].
    constructor; [|eapply Forall_impl; [|exact Hdig]; auto].
    unfold num_char. apply Ascii.eqb_eq in Ec. subst c. rewrite Ascii.eqb_refl, orb_true_r.
    reflexivity.
  - destruct (m_plus_sound _ _ _ _ Hk1) as (d & suf & -> & Hne & Hdig & Hk).
    exists (p1 ++ d), suf. split; [apply app_assoc|].
    split; [destruct p1, d; simpl; congruence|]. split; [|exact Hk].
    apply Forall_app. split; eapply Forall_impl; try eassumption; auto.
Qed.

Lemma search_num_shape (s frag : list ascii) :
  search_num s = Some frag -> frag <> [] /\ Forall (fun c => num_char c = true) frag.
Proof.
  induction s as [|c s IH]; simpl; intros H.
  - destruct (num_pat [] (fun rest => Some rest)) as [rest|] eqn:E; [|discriminate].
    destruct (num_pat_sound _ _ _ E) as (pre & suf & Hs & Hne & _).
    destruct pre; [contradiction|discriminate].
  - destruct (num_pat (c :: s) (fun rest => Some rest)) as [rest|] eqn:E; [|exact (IH H)].
    injection H as <-.
    destruct (num_pat_sound _ _ _ E) as (pre & suf & Hs & Hne & Hf & Hk).
    injection Hk as ->.
    assert (Hfr : firstn (List.length (c :: s) - List.length rest) (c :: s) = pre)
      by (rewrite Hs; apply firstn_length_app).
    simpl in Hfr. rewrite Hfr. auto.
Qed.

(** A character of a number fragment is no NUL, no white space, no sign,
    and does not lower-case to a sign or to [i]. *)
Lemma num_char_props (c : ascii) :
  num_char c = true ->
  Nat.eqb (nat_of_ascii c) 0 = false /\ is_space c = false /\
  Ascii.eqb c "-" = false /\ Ascii.eqb c "+" = false /\
  Ascii.eqb (lower_ascii c) "-" = false /\ Ascii.eqb (lower_ascii c) "+" = false /\
  Ascii.eqb (lower_ascii c) "i" = false.
Proof.
  assert (Hall : forallb (fun n => let c := ascii_of_nat n in
                   implb (num_char c)
                     (negb (Nat.eqb (nat_of_ascii c) 0) && negb (is_space c) &&
                      negb (Ascii.eqb c "-") && negb (Ascii.eqb c "+") &&
                      negb (Ascii.eqb (lower_ascii c) "-") &&
                      negb (Ascii.eqb (lower_ascii c) "+") &&
                      negb (Ascii.eqb (lower_ascii c) "i")))
                 (seq 0 256) = true) by (vm_compute; reflexivity).
  intros Hc. rewrite forallb_forall in Hall.
  assert (Hlt : (nat_of_ascii c < 256)%nat) by apply nat_ascii_bounded.
  specialize (Hall (nat_of_ascii c) (proj2 (in_seq _ _ _) (conj (Nat.le_0_l _) Hlt))).
  cbv beta zeta in Hall. rewrite ascii_nat_embedding, Hc in Hall. simpl in Hall.
  repeat (apply andb_true_iff in Hall as [Hall ?]).
  apply negb_true_iff in Hall.
  repeat match goal with H : negb _ = true |- _ => apply negb_true_iff in H end.
  auto 8.
Qed.

Lemma digits_Z_nonneg_from (d : list ascii) : forall acc,
  (0 <= acc)%Z -> (0 <= fold_left (fun acc c => (acc * 10 + digit_val c)%Z) d acc)%Z.
Proof.
  induction d as [|c d IH]; simpl; intros acc Hacc; [exact Hacc|].
  apply IH. unfold digit_val. lia.
Qed.

Lemma digits_Z_nonneg (d : list ascii) : (0 <= digits_Z d)%Z.
Proof. apply digits_Z_nonneg_from. lia. Qed.

Lemma scale10_nonneg (m e : Z) : (0 <= m)%Z -> 0 <= scale10 m e.
Proof.
  intros Hm. unfold scale10. destruct (0 <=? e)%Z eqn:E.
  - apply Z.leb_le in E. unfold Qle. simpl. rewrite Z.mul_1_r.
    apply Z.mul_nonneg_nonneg; [exact Hm|]. apply Z.pow_nonneg. lia.
  - unfold Qle. simpl. lia.
Qed.

(** Without a sign [xstrtod] reads no negative number. *)
Lemma xstrtod_unsigned (s : list ascii) (q : Q) (mi : bool) (r : list ascii) :
  fst (take_sign (skip_spaces s)) = false -> xstrtod s = Some (q, mi, r) -> 0 <= q.
Proof.
  unfold xstrtod. destruct (take_sign (skip_spaces s)) as [neg s1].
  simpl. intros ->.
  repeat match goal with
  | |- context [match ?x with _ => _ end] => destruct x
  end; intros H; try discriminate; injection H as <- _ _;
  apply scale10_nonneg, digits_Z_nonneg.
Qed.

Lemma c_string_num (s : list ascii) :
  Forall (fun c => num_char c = true) s -> c_string s = s.
Proof.
  induction 1 as [|c s Hc _ IH]; [reflexivity|].
  simpl. destruct (num_char_props c Hc) as (H0 & _). rewrite H0, IH. reflexivity.
Qed.

Lemma string_eqb_head (a x : ascii) (s s' : string) :
  Ascii.eqb a x = false -> String.eqb (String a s) (String x s') = false.
Proof. intros H. simpl. rewrite H. reflexivity. Qed.

Lemma inf_word_num (c : ascii) (s : list ascii) :
  num_char c = true -> inf_word (c :: s) = PNaN.
Proof.
  intros Hc. destruct (num_char_props c Hc) as (_ & _ & _ & _ & Hm & Hp & Hi).
  unfold inf_word. cbn [map string_of_list_ascii].
  rewrite !(string_eqb_head _ "i"), !(string_eqb_head _ "+"), !(string_eqb_head _ "-")
    by assumption.
  reflexivity.
Qed.

(** [pd.to_numeric] of a fragment of digits and dots is NaN or a
    non-negative number. *)
Lemma parse_float_num (s : list ascii) :
  s <> [] -> Forall (fun c => num_char c = true) s ->
  parse_float (string_of_list_ascii s) = PNaN \/
  exists q, parse_float (string_of_list_ascii s) = PFin q /\ 0 <= q.
Proof.
  intros Hne Hf. unfold parse_float.
  rewrite list_ascii_of_string_of_list_ascii, (c_string_num s Hf).
  destruct s as [|c s]; [contradiction|].
  inversion Hf as [|? ? Hc _]; subst.
  destruct (num_char_props c Hc) as (_ & Hsp & Hm & Hp & _).
  destruct (xstrtod (c :: s)) as [[[q mi] r]|] eqn:E;
    [|left; apply inf_word_num; exact Hc].
  destruct r as [|b r]; [|left; apply inf_word_num; exact Hc].
  destruct (mi && _); [left; reflexivity|].
  right. exists q. split; [reflexivity|].
  apply (xstrtod_unsigned (c :: s) q mi []); [|exact E].
  simpl. rewrite Hsp. simpl. rewrite Hm, Hp. reflexivity.
Qed.

Lemma extract_time_nonneg (c : cell) :
  extract_time c = PNaN \/ exists q, extract_time c = PFin q /\ 0 <= q.
Proof.
  unfold extract_time, extract_number.
  destruct (search_num (list_ascii_of_string (py_str c))) as [frag|] eqn:E;
    [|left; reflexivity].
  simpl. destruct (search_num_shape _ _ E) as [Hne Hf].
  apply parse_float_num; assumption.
Qed.

(** [_coerce_time] keeps the length of the column, and when it falls back
    to extraction no time is negative: the pattern has no sign, so ["-1"]
    becomes [1]; unmatched values are NaN. *)
Theorem coerce_time_fallback_nonneg (col : list cell) :
  List.length (_coerce_time col) = List.length col /\
  (forallb notna (map to_numeric col) = false ->
   Forall (fun x => x = PNaN \/ exists q, x = PFin q /\ 0 <= q) (_coerce_time col)).
Proof.
  unfold _coerce_time. split.
  - destruct (forallb notna (map to_numeric col)); apply length_map.
  - intros ->. apply Forall_forall. intros x Hx.
    apply in_map_iff in Hx as (c & <- & _). apply extract_time_nonneg.
Qed.

(** ** Binning *)

(** For a positive [interval_hours] a finite time [t] is grouped under
    [z * interval_hours] for the integer [z] with
    [z * interval_hours <= t < z * interval_hours + interval_hours];
    infinite and NaN times keep their value. *)
Theorem time_bin_contains_time (q : Q) :
  0 < q ->
  (forall t : Q, exists z : Z,
     time_key (Some q) (PFin t) = PFin (inject_Z z * q) /\
     inject_Z z * q <= t /\ t < inject_Z z * q + q) /\
  time_key (Some q) PInf = PInf /\ time_key (Some q) PNInf = PNInf /\
  time_key (Some q) PNaN = PNaN.
Proof.
  intros Hq. repeat split; try (rewrite time_key_positive by exact Hq; reflexivity).
  intros t. rewrite time_key_positive by exact Hq. simpl.
  exists (Qfloor (t / q)). split; [reflexivity|].
  assert (Hq0 : ~ q == 0) by (intros E; rewrite E in Hq; exact (Qlt_irrefl 0 Hq)).
  assert (Ht : t / q * q == t) by (rewrite Qmult_comm; apply Qmult_div_r; exact Hq0).
  split.
  - apply Qle_trans with (t / q * q); [|rewrite Ht; apply Qle_refl].
    apply Qmult_le_r; [exact Hq|]. apply Qfloor_le.
  - apply Qlt_le_trans with ((inject_Z (Qfloor (t / q) + 1)) * q).
    + apply Qle_lt_trans with (t / q * q); [rewrite Ht; apply Qle_refl|].
      apply Qmult_lt_r; [exact Hq|]. apply Qlt_floor.
    + rewrite inject_Z_plus. ring_simplify. apply Qle_refl.
Qed.

(** ** Counting *)

Lemma string_eqb_trans (a b c : string) :
  String.eqb a b = true -> String.eqb b c = true -> String.eqb a c = true.
Proof. rewrite !String.eqb_eq. congruence. Qed.

Lemma pf_eqb_trans (a b c : pyfloat) :
  pf_eqb a b = true -> pf_eqb b c = true -> pf_eqb a c = true.
Proof.
  destruct a, b, c; simpl; try discriminate; auto.
  rewrite !Qeq_bool_iff. intros H1 H2. rewrite H1. exact H2.
Qed.

Lemma key_eqb_trans (a b c : string * pyfloat) :
  key_eqb a b = true -> key_eqb b c = true -> key_eqb a c = true.
Proof.
  unfold key_eqb. rewrite !andb_true_iff. intros [H1 H2] [H3 H4].
  split; [eapply string_eqb_trans|eapply pf_eqb_trans]; eassumption.
Qed.

Lemma length_filter_or {A} (f g : A -> bool) (l : list A) :
  (forall x, In x l -> f x = true -> g x = false) ->
  List.length (filter (fun x => f x || g x) l) =
  (List.length (filter f l) + List.length (filter g l))%nat.
Proof.
  induction l as [|a l IH]; intros Hd; [reflexivity|].
  specialize (IH (fun x Hx => Hd x (or_intror Hx))).
  simpl filter. destruct (f a) eqn:Ef.
  - rewrite (Hd a (or_introl eq_refl) Ef). simpl. rewrite IH. reflexivity.
  - destruct (g a); simpl; rewrite IH; lia.
Qed.

Section Counting.
Variable (kp : tidy_rec * pyfloat -> string * pyfloat) (P : tidy_rec * pyfloat -> bool).

Lemma sum_count_keys (l : list (tidy_rec * pyfloat)) (K : list (string * pyfloat)) :
  ForallOrdPairs (fun a b => key_eqb a b = false) K ->
  fold_right (fun k acc => (List.length (filter (fun p => key_eqb (kp p) k && P p) l) + acc)%nat)
             0%nat K =
  List.length (filter (fun p => existsb (key_eqb (kp p)) K && P p) l).
Proof.
  induction 1 as [|k K Hk HK IH]; simpl.
  - induction l; simpl; auto.
  - rewrite IH.
    rewrite <- length_filter_or.
    + f_equal. apply filter_ext. intros p.
      destruct (key_eqb (kp p) k), (existsb (key_eqb (kp p)) K), (P p); reflexivity.
    + intros p _ H1. apply andb_true_iff in H1 as [H1 HP].
      rewrite HP, andb_true_r.
      destruct (existsb (key_eqb (kp p)) K) eqn:E; [|reflexivity].
      apply existsb_exists in E as (k' & Hk' & H2).
      rewrite Forall_forall in Hk. specialize (Hk k' Hk').
      rewrite key_eqb_sym in H1. rewrite (key_eqb_trans _ _ _ H1 H2) in Hk. discriminate.
Qed.
End Counting.

Lemma length_key_values (obs : list (tidy_rec * pyfloat)) (k : string * pyfloat) :
  List.length (key_values obs k) =
  List.length (filter (fun p => key_eqb (group (fst p), snd p) k && notna (value (fst p))) obs).
Proof.
  unfold key_values. induction obs as [|p obs IH]; simpl; [reflexivity|].
  destruct (key_eqb (group (fst p), snd p) k); simpl; [|exact IH].
  destruct (notna (value (fst p))); simpl; congruence.
Qed.

Lemma sum_n_group_stats (t : tidy_table) (kf : pyfloat -> pyfloat) :
  sum_n (group_stats t (map (fun r => kf (time r)) (rows t))) =
  fold_right (fun k acc =>
      (List.length (filter (fun p => key_eqb (group (fst p), snd p) k && notna (value (fst p)))
                           (obs_of t kf)) + acc)%nat) 0%nat (group_keys t (obs_of t kf)).
Proof.
  rewrite group_stats_obs. unfold sum_n.
  induction (group_keys t (obs_of t kf)) as [|k K IH]; simpl; [reflexivity|].
  rewrite length_key_values, IH. reflexivity.
Qed.

Lemma existsb_group_keys (t : tidy_table) (kf : pyfloat -> pyfloat) (p : tidy_rec * pyfloat) :
  In p (obs_of t kf) ->
  existsb (key_eqb (group (fst p), snd p)) (group_keys t (obs_of t kf)) = in_cats t (fst p).
Proof.
  intros Hp. unfold obs_of in Hp. apply filter_In in Hp as [Hp Hn].
  apply in_map_iff in Hp as (r & <- & Hr). simpl in *.
  destruct (in_cats t r) eqn:Ec.
  - assert (Hg : match categories t with Some cs => In (group r) cs | None => group r = group r end).
    { unfold in_cats in Ec. destruct (categories t) as [cs|]; [|reflexivity].
      apply existsb_exists in Ec as (g & Hg & E). apply String.eqb_eq in E. congruence. }
    destruct (group_keys_cover t kf r (group r) Hr Hn Hg) as (k & Hk & Hkg & Hkt).
    apply existsb_exists. exists k. split; [exact Hk|].
    unfold key_eqb. simpl. rewrite <- Hkg, String.eqb_refl, pf_eqb_sym, Hkt. reflexivity.
  - destruct (existsb _ _) eqn:E; [|reflexivity].
    apply existsb_exists in E as (k & Hk & Hkr).
    unfold key_eqb in Hkr. apply andb_true_iff in Hkr as [Hg _]. simpl in Hg.
    apply String.eqb_eq in Hg.
    unfold in_cats in Ec. unfold group_keys in Hk. destruct (categories t) as [cs|]; [|discriminate].
    apply in_flat_map in Hk as (g & Hgcs & Hk). apply in_map_iff in Hk as (tm & <- & _).
    simpl in Hg. subst g. rewrite <- Ec. symmetry. apply existsb_exists.
    exists (group r). split; [exact Hgcs|apply String.eqb_refl].
Qed.

(** Every record is counted once: the [n] of all stats records add up to
    the number of records with a non-NaN time key and a non-NaN value whose
    group is counted (for a categorical [group], a category); no record is
    counted twice, and an unobserved key adds [n = 0]. *)
Theorem aggregate_counts_each_record_once (h : heap) (df : loc) (f : frame) (ih : option Q) :
  hget h df = Some f -> categories_ok (f_tidy f) ->
  exists st h',
    aggregate_mean_sd df ih h = Some (st, h') /\
    sum_n st =
      List.length (filter (fun r => notna (time_key ih (time r)) && notna (value r) &&
                                    in_cats (f_tidy f) r) (rows (f_tidy f))).
Proof.
  intros Hf Hok.
  destruct (aggregate_mean_sd_run h df f ih Hf) as (h' & Hrun & _).
  eexists _, h'. split; [exact Hrun|].
  set (t := f_tidy f). set (kf := time_key ih).
  rewrite sum_n_group_stats.
  rewrite (sum_count_keys (fun p => (group (fst p), snd p)) (fun p => notna (value (fst p)))
             (obs_of t kf) _ (group_keys_pairwise t _ Hok)).
  rewrite (filter_ext_in _ (fun p => in_cats t (fst p) && notna (value (fst p))))
    by (intros p Hp; rewrite existsb_group_keys by exact Hp; reflexivity).
  unfold obs_of. induction (rows t) as [|r rs IH]; simpl; [reflexivity|].
  destruct (notna (kf (time r))); simpl; [|exact IH].
  destruct (in_cats t r), (notna (value r)); simpl; rewrite IH; reflexivity.
Qed.

(** ** The Streamlit script *)

(** The script's group list names each group of the tidy table once, in
    the order of first appearance among the records. *)
Theorem ui_groups_first_appearance (t : tidy_table) :
  NoDup (ui_groups t) /\
  ui_groups t = first_occurrence_order (map group (rows t)) /\
  (forall g, In g (ui_groups t) <-> exists r, In r (rows t) /\ group r = g).
Proof.
  split; [apply uniq_string_nodup|]. split; [apply uniq_is_first_occurrence_order|].
  intros g. unfold ui_groups. split.
  - intros Hg. apply uniq_incl in Hg. apply in_map_iff in Hg as (r & <- & Hr). eauto.
  - intros (r & Hr & <-).
    destruct (uniq_cover String.eqb String.eqb_refl (map group (rows t)) [] (group r))
      as [(y & [] & _) | (y & Hy & E)]; [apply in_map; exact Hr|].
    apply String.eqb_eq in E. subst y. exact Hy.
Qed.

Lemma default_colors_nodup : NoDup default_colors.
Proof.
  apply ordpairs_string_nodup. unfold default_colors.
  repeat constructor.
Qed.

Lemma nth_error_combine_opt {A B} (l1 : list A) (l2 : list B) (i : nat) :
  nth_error (combine l1 l2) i =
  match nth_error l1 i, nth_error l2 i with
  | Some a, Some b => Some (a, b)
  | _, _ => None
  end.
Proof.
  revert l2 i. induction l1 as [|a l1 IH]; intros [|b l2] [|i]; simpl; auto.
  destruct (nth_error l1 i); reflexivity.
Qed.

(** The default group table exists only for at most ten groups: with more,
    [pd.DataFrame] gets a [color] column shorter than [group] and raises
    (outside the [try] around the read).  Otherwise row [i] holds group
    [i] as its display name and the [i]-th default colour. *)
Theorem group_table_at_most_ten (gs : list string) :
  (group_table gs = None <-> (10 < List.length gs)%nat) /\
  (forall tbl, group_table gs = Some tbl ->
     List.length tbl = List.length gs /\
     forall i g, nth_error gs i = Some g ->
       exists c, nth_error default_colors i = Some c /\
                 nth_error tbl i = Some {| gr_group := Some g; gr_display := Some g;
                                           gr_color := Some c |}).
Proof.
  unfold group_table. rewrite length_firstn.
  assert (Hd : List.length default_colors = 10%nat) by reflexivity.
  rewrite Hd. split.
  - destruct (Nat.eqb_spec (Nat.min (List.length gs) 10) (List.length gs)); split;
      intros H; try discriminate; try reflexivity; lia.
  - intros tbl. destruct (Nat.eqb_spec (Nat.min (List.length gs) 10) (List.length gs)) as [E|];
      [|discriminate].
    intros H. injection H as <-. rewrite length_map, length_combine, length_firstn, Hd.
    split; [lia|].
    intros i g Hi.
    assert (Hlt : (i < List.length gs)%nat) by (apply nth_error_Some; congruence).
    destruct (nth_error default_colors i) as [c|] eqn:Ec.
    + exists c. split; [reflexivity|].
      rewrite nth_error_map, nth_error_combine_opt, Hi, nth_error_firstn.
      destruct (Nat.ltb_spec i (List.length gs)); [|lia]. rewrite Ec. reflexivity.
    + apply nth_error_None in Ec. rewrite Hd in Ec. lia.
Qed.

Lemma opt_str_eqb_sym (a b : option string) : opt_str_eqb a b = opt_str_eqb b a.
Proof. destruct a, b; simpl; auto using String.eqb_sym. Qed.

Lemma opt_str_eqb_trans (a b c : option string) :
  opt_str_eqb a b = true -> opt_str_eqb b c = true -> opt_str_eqb a c = true.
Proof. destruct a, b, c; simpl; try discriminate; eauto using string_eqb_trans. Qed.

Lemma all_distinct_filter_short (x : option string) (l : list group_row) :
  all_distinct opt_str_eqb (map gr_group l) = true ->
  (List.length (filter (fun r => opt_str_eqb x (gr_group r)) l) <= 1)%nat.
Proof.
  induction l as [|r l IH]; simpl; intros H; [lia|].
  apply andb_true_iff in H as [Hr Hl]. specialize (IH Hl).
  destruct (opt_str_eqb x (gr_group r)) eqn:E; simpl; [|exact IH].
  destruct (filter (fun r0 => opt_str_eqb x (gr_group r0)) l) as [|r' rest] eqn:F;
    [simpl; lia|].
  exfalso. assert (Hin : In r' (filter (fun r0 => opt_str_eqb x (gr_group r0)) l))
    by (rewrite F; left; reflexivity).
  apply filter_In in Hin as [Hin E'].
  apply negb_true_iff in Hr.
  assert (Hex : existsb (opt_str_eqb (gr_group r)) (map gr_group l) = true).
  { apply existsb_exists. exists (gr_group r'). split; [apply in_map; exact Hin|].
    rewrite opt_str_eqb_sym in E. exact (opt_str_eqb_trans _ _ _ E E'). }
  congruence.
Qed.

Lemma merge_rows_one_per_left {A} (key : A -> string) (left : list A) (right : list group_row) :
  all_distinct opt_str_eqb (map gr_group right) = true ->
  map merged_left
    (flat_map (fun a =>
       match filter (fun r => opt_str_eqb (Some (key a)) (gr_group r)) right with
       | [] => [(a, None, None)]
       | ms => map (fun r => (a, gr_display r, gr_color r)) ms
       end) left) = left.
Proof.
  intros E. induction left as [|a left IH]; [reflexivity|].
  cbn [flat_map]. rewrite map_app, IH.
  pose proof (all_distinct_filter_short (Some (key a)) right E) as Hs.
  destruct (filter (fun r => opt_str_eqb (Some (key a)) (gr_group r)) right) as [|r [|r' rest]];
    [reflexivity|reflexivity|simpl in Hs; lia].
Qed.

(** [merge(..., how="left", validate="many_to_one")] raises exactly when
    the group table repeats a group (two equal names, or two rows added in
    the editor with no group); otherwise the result has one row per left
    row, in the same order. *)
Theorem merge_left_many_to_one {A} (key : A -> string) (left : list A) (right : list group_row) :
  (merge_left key left right = None <->
     all_distinct opt_str_eqb (map gr_group right) = false) /\
  (forall out, merge_left key left right = Some out -> map merged_left out = left).
Proof.
  unfold merge_left.
  destruct (all_distinct opt_str_eqb (map gr_group right)) eqn:E;
    (split; [split; intros H; discriminate + reflexivity|]); [|discriminate].
  intros out H. injection H as <-. apply merge_rows_one_per_left. exact E.
Qed.

(** With the default group table (no edits) the merge succeeds; a left row
    whose group is in the group list gets that group as display name and
    the group's default colour, and a row whose group is not listed (a
    category without records) gets missing cells. *)
Theorem merge_default_table {A} (key : A -> string) (left : list A) (gs : list string)
    (tbl : list group_row) :
  NoDup gs -> group_table gs = Some tbl ->
  exists out, merge_left key left tbl = Some out /\ map merged_left out = left /\
    forall a d c, In (a, d, c) out ->
      (In (key a) gs -> d = Some (key a) /\
         exists i, nth_error gs i = Some (key a) /\ c = nth_error default_colors i) /\
      (~ In (key a) gs -> d = None /\ c = None).
Proof.
  intros Hnd Htbl.
  destruct (proj2 (group_table_at_most_ten gs) tbl Htbl) as [Hlen Hrow].
  assert (Htbl' : tbl = map (fun '(g, c) => {| gr_group := Some g; gr_display := Some g;
                                               gr_color := Some c |})
                            (combine gs (firstn (List.length gs) default_colors))).
  { unfold group_table in Htbl. destruct (Nat.eqb _ _); [|discriminate]. congruence. }
  assert (Hgroups : map gr_group tbl = map Some gs).
  { rewrite Htbl', map_map.
    assert (Hl : List.length (firstn (List.length gs) default_colors) = List.length gs).
    { unfold group_table in Htbl. destruct (Nat.eqb_spec (List.length (firstn (List.length gs) default_colors)) (List.length gs)); [exact e|discriminate]. }
    clear -Hl. revert Hl. generalize (firstn (List.length gs) default_colors).
    induction gs as [|g gs IH]; intros cs Hl; [reflexivity|].
    destruct cs as [|c cs]; [discriminate|]. simpl. f_equal. apply IH. simpl in Hl. lia. }
  assert (Hdist : all_distinct opt_str_eqb (map gr_group tbl) = true).
  { rewrite Hgroups. clear -Hnd. induction Hnd as [|g gs Hg Hnd IH]; simpl; [reflexivity|].
    rewrite IH, andb_true_r. apply negb_true_iff.
    destruct (existsb _ _) eqn:E; [|reflexivity]. exfalso.
    apply existsb_exists in E as (x & Hx & Ex). apply in_map_iff in Hx as (g' & <- & Hg').
    simpl in Ex. apply String.eqb_eq in Ex. subst g'. contradiction. }
  unfold merge_left. rewrite Hdist. eexists. split; [reflexivity|].
  split; [apply merge_rows_one_per_left; exact Hdist|].
  intros a d c Hin. apply in_flat_map in Hin as (a' & Ha' & Hin).
  destruct (filter (fun r => opt_str_eqb (Some (key a')) (gr_group r)) tbl) as [|r ms] eqn:F.
  - destruct Hin as [E|[]]. injection E as Ea Ed Ec. subst a' d c.
    split; [|auto]. intros Hk. exfalso.
    apply In_nth_error in Hk as (i & Hi).
    destruct (Hrow i (key a) Hi) as (c & _ & Hr).
    apply nth_error_In in Hr.
    assert (Hf : In {| gr_group := Some (key a); gr_display := Some (key a); gr_color := Some c |}
                    (filter (fun r => opt_str_eqb (Some (key a)) (gr_group r)) tbl))
      by (apply filter_In; split; [exact Hr|simpl; apply String.eqb_refl]).
    rewrite F in Hf. exact Hf.
  - assert (Hr : In r (filter (fun r => opt_str_eqb (Some (key a')) (gr_group r)) tbl))
      by (rewrite F; left; reflexivity).
    apply filter_In in Hr as [Hr Er].
    pose proof (all_distinct_filter_short (Some (key a')) tbl Hdist) as Hs. rewrite F in Hs.
    destruct ms; [|simpl in Hs; lia].
    destruct Hin as [E|[]]. injection E as Ea Ed Ec. subst a' d c.
    apply In_nth_error in Hr as (i & Hi).
    assert (Hig : nth_error (map gr_group tbl) i = Some (gr_group r)) by (rewrite nth_error_map, Hi; reflexivity).
    rewrite Hgroups, nth_error_map in Hig.
    destruct (nth_error gs i) as [g|] eqn:Eg; [|discriminate]. simpl in Hig.
    destruct (Hrow i g Eg) as (c & Ec & Hr').
    rewrite Hi in Hr'. injection Hr' as ->.
    simpl in Er. apply String.eqb_eq in Er. subst g.
    split.
    + intros _. split; [reflexivity|]. exists i. auto.
    + intros Hn. exfalso. apply Hn. eapply nth_error_In. exact Eg.
Qed.

Lemma finite_list_map_PFin (l : list pyfloat) :
  Forall (fun v => pf_finite v = true) l -> exists qs, l = map PFin qs.
Proof.
  induction 1 as [|v l Hv _ IH]; [exists []; reflexivity|].
  destruct IH as (qs & ->). destruct v as [q| | |]; try discriminate.
  exists (q :: qs). reflexivity.
Qed.

Lemma values_at_finite (t : tidy_table) (kf : pyfloat -> pyfloat) (g : string) (tm : pyfloat) :
  (forall r, In r (rows t) -> pf_finite (value r) = true) ->
  exists qs, values_at t kf g tm = map PFin qs.
Proof.
  intros Hfin. apply finite_list_map_PFin. apply Forall_forall.
  intros v Hv. unfold values_at in Hv. apply filter_In in Hv as [Hv _].
  apply in_map_iff in Hv as (r & <- & Hr). apply filter_In in Hr as [Hr _]. auto.
Qed.

(** When every value is finite, the script draws the SD band of a group
    exactly when "SD" is chosen and some (group, time) key of that group
    has at least two values; a group measured once per time point gets no
    band. *)
Theorem band_drawn_iff_two_values (h : heap) (df : loc) (f : frame) (ih : option Q) :
  hget h df = Some f ->
  (forall r, In r (rows (f_tidy f)) -> pf_finite (value r) = true) ->
  exists st h',
    aggregate_mean_sd df ih h = Some (st, h') /\
    forall (choice g : string),
      band_drawn choice st g = true <->
      choice = "SD" /\ exists s, In s st /\ g_group s = g /\ (2 <= g_n s)%nat.
Proof.
  intros Hf Hfin.
  destruct (aggregate_mean_sd_run h df f ih Hf) as (h' & Hrun & _).
  eexists _, h'. split; [exact Hrun|].
  set (st := group_stats _ _).
  assert (Hsd : forall s, In s st -> sd_notna s = Nat.leb 2 (g_n s)).
  { intros s Hs. destruct (in_group_stats _ _ _ Hs) as (k & _ & _ & _ & _ & Hn & _ & Hv).
    destruct (values_at_finite (f_tidy f) (time_key ih) (fst k) (snd k) Hfin) as (qs & Hqs).
    unfold sd_notna, g_sd. rewrite Hv, Hn, Hqs, length_map.
    destruct (Nat.leb_spec 2 (List.length qs)).
    - rewrite pf_var_fin by exact H. reflexivity.
    - rewrite pf_var_short by (rewrite length_map; lia). reflexivity. }
  intros choice g. unfold band_drawn.
  rewrite andb_true_iff, String.eqb_eq, existsb_exists.
  split; intros [Hc (s & Hs & H)]; split; try exact Hc; exists s; split; try exact Hs.
  - apply andb_true_iff in H as [Hg Hn]. apply String.eqb_eq in Hg.
    rewrite Hsd in Hn by exact Hs. apply Nat.leb_le in Hn. auto.
  - destruct H as [Hg Hn]. rewrite Hg, String.eqb_refl, Hsd by exact Hs.
    apply Nat.leb_le in Hn. rewrite Hn. reflexivity.
Qed.

Section Legend.
Context {H : Type}.

Lemma dedup_legend_labels (hl : list (H * string)) : forall seen,
  map snd (dedup_legend seen hl) = uniq String.eqb seen (map snd hl).
Proof.
  induction hl as [|[h l] rest IH]; intros seen; simpl; [reflexivity|].
  destruct (existsb (String.eqb l) seen); simpl; [apply IH|]. f_equal. apply IH.
Qed.

Lemma dedup_legend_not_seen (hl : list (H * string)) : forall seen h l,
  In (h, l) (dedup_legend seen hl) -> existsb (String.eqb l) seen = false.
Proof.
  induction hl as [|[h0 l0] rest IH]; intros seen h l Hin; simpl in Hin; [contradiction|].
  destruct (existsb (String.eqb l0) seen) eqn:E; [exact (IH _ _ _ Hin)|].
  destruct Hin as [Eq|Hin]; [injection Eq as <- <-; exact E|].
  apply IH in Hin. simpl in Hin. apply orb_false_iff in Hin as [_ Hin]. exact Hin.
Qed.

Lemma dedup_legend_first (hl : list (H * string)) : forall seen h l,
  In (h, l) (dedup_legend seen hl) ->
  find (fun p => String.eqb (snd p) l) hl = Some (h, l).
Proof.
  induction hl as [|[h0 l0] rest IH]; intros seen h l Hin; [contradiction|].
  pose proof (dedup_legend_not_seen _ _ _ _ Hin) as Hns.
  simpl in Hin |- *.
  destruct (existsb (String.eqb l0) seen) eqn:E.
  - destruct (String.eqb_spec l0 l) as [<-|Hne]; [congruence|].
    exact (IH _ _ _ Hin).
  - destruct Hin as [Eq|Hin].
    + injection Eq as <- <-. rewrite String.eqb_refl. reflexivity.
    + pose proof (dedup_legend_not_seen _ _ _ _ Hin) as Hns'. simpl in Hns'.
      apply orb_false_iff in Hns' as [Hl0 _].
      rewrite String.eqb_sym in Hl0. rewrite Hl0. exact (IH _ _ _ Hin).
Qed.
End Legend.

(** The legend of the replicate plot has one entry per label, in the
    order the labels first occur among the plotted lines, each with the
    handle of the first line carrying that label. *)
Theorem legend_one_entry_per_label {H : Type} (hl : list (H * string)) :
  NoDup (map snd (dedup_legend [] hl)) /\
  map snd (dedup_legend [] hl) = first_occurrence_order (map snd hl) /\
  (forall h l, In (h, l) (dedup_legend [] hl) ->
               find (fun p => String.eqb (snd p) l) hl = Some (h, l)) /\
  (forall l, In l (map snd hl) -> In l (map snd (dedup_legend [] hl))).
Proof.
  rewrite dedup_legend_labels. split; [apply uniq_string_nodup|].
  split; [apply uniq_is_first_occurrence_order|]. split.
  - intros h l. apply dedup_legend_first.
  - intros l Hl.
    destruct (uniq_cover String.eqb String.eqb_refl (map snd hl) [] l Hl)
      as [(y & [] & _) | (y & Hy & E)].
    apply String.eqb_eq in E. subst y. exact Hy.
Qed.

(** ** Instances of the further properties *)


Lemma read_groups_in_categories_witness :
  exists out r, read_incucyte_csv unobserved_category_raw = ROk out /\
    In r (rows out) /\ in_cats out r = true.
Proof.
  eexists. eexists. split; [reflexivity|]. split; [simpl; left; reflexivity|].
  apply (read_groups_in_categories unobserved_category_raw); [reflexivity|simpl; left; reflexivity].
Defined.

Lemma wide_time_column_is_last_witness :
  has_column two_time_columns_raw "time" /\
  exists pre cells post,
    columns two_time_columns_raw = pre ++ (wide_time_col two_time_columns_raw, cells) :: post /\
    lower (wide_time_col two_time_columns_raw) = "time" /\
    Forall (fun p => lower (fst p) <> "time") post /\
    (forall c cs, In (c, cs) (columns two_time_columns_raw) ->
                  c <> wide_time_col two_time_columns_raw ->
                  In (c, cs) (value_cols_in_order two_time_columns_raw)).
Proof.
  assert (H : has_column two_time_columns_raw "time")
    by (exists "Time"; split; [simpl; left; reflexivity|reflexivity]).
  split; [exact H|]. apply (wide_time_column_is_last two_time_columns_raw H).
Defined.

Lemma time_bin_contains_time_witness :
  0 < 4 /\
  (forall t : Q, exists z : Z,
     time_key (Some 4) (PFin t) = PFin (inject_Z z * 4) /\
     inject_Z z * 4 <= t /\ t < inject_Z z * 4 + 4) /\
  time_key (Some 4) PInf = PInf /\ time_key (Some 4) PNInf = PNInf /\
  time_key (Some 4) PNaN = PNaN.
Proof.
  assert (H : 0 < 4) by reflexivity.
  split; [exact H|]. apply (time_bin_contains_time 4 H).
Defined.

Lemma aggregate_counts_each_record_once_witness :
  hget [(0%nat, two_obs_frame)] 0%nat = Some two_obs_frame /\
  categories_ok (f_tidy two_obs_frame) /\
  exists st h',
    aggregate_mean_sd 0%nat (Some 4) [(0%nat, two_obs_frame)] = Some (st, h') /\
    sum_n st =
      List.length (filter (fun r => notna (time_key (Some 4) (time r)) && notna (value r) &&
                                    in_cats (f_tidy two_obs_frame) r) (rows (f_tidy two_obs_frame))).
Proof.
  assert (Hh : hget [(0%nat, two_obs_frame)] 0%nat = Some two_obs_frame) by reflexivity.
  assert (Hc : categories_ok (f_tidy two_obs_frame)) by (simpl; exact I).
  split; [exact Hh|]. split; [exact Hc|].
  apply (aggregate_counts_each_record_once _ _ _ (Some 4) Hh Hc).
Defined.

Lemma merge_default_table_witness :
  exists tbl, NoDup ["A"] /\ group_table ["A"] = Some tbl /\
  exists out, merge_left (fun s : string => s) ["A"; "B"; "A"] tbl = Some out /\
    map merged_left out = ["A"; "B"; "A"] /\
    forall a d c, In (a, d, c) out ->
      (In a ["A"] -> d = Some a /\
         exists i, nth_error ["A"] i = Some a /\ c = nth_error default_colors i) /\
      (~ In a ["A"] -> d = None /\ c = None).
Proof.
  assert (Hnd : NoDup ["A"]) by (repeat constructor; simpl; tauto).
  eexists. split; [exact Hnd|]. split; [reflexivity|].
  apply (merge_default_table (fun s : string => s) ["A"; "B"; "A"] ["A"] _ Hnd).
  reflexivity.
Defined.

Lemma band_drawn_iff_two_values_witness :
  hget [(0%nat, two_obs_frame)] 0%nat = Some two_obs_frame /\
  (forall r, In r (rows (f_tidy two_obs_frame)) -> pf_finite (value r) = true) /\
  exists st h',
    aggregate_mean_sd 0%nat None [(0%nat, two_obs_frame)] = Some (st, h') /\
    forall (choice g : string),
      band_drawn choice st g = true <->
      choice = "SD" /\ exists s, In s st /\ g_group s = g /\ (2 <= g_n s)%nat.
Proof.
  assert (Hh : hget [(0%nat, two_obs_frame)] 0%nat = Some two_obs_frame) by reflexivity.
  assert (Hf : forall r, In r (rows (f_tidy two_obs_frame)) -> pf_finite (value r) = true).
  { intros r Hr. simpl in Hr. repeat destruct Hr as [<-|Hr]; try reflexivity. contradiction. }
  split; [exact Hh|]. split; [exact Hf|].
  apply (band_drawn_iff_two_values _ _ _ None Hh Hf).
Defined.
